(* ===== verification/_CoqProject ===== *)
-Q . S2P
Prelude.v
MeshTypes.v
Pool.v
PoolSpec.v
Concurrency.v
AddrStamp.v
Locator.v
Builder.v
Sanitize.v
ChainSpec.v
Composition.v
PoolStore.v
