(* ===== verification/Prelude.v ===== *)
(** * Verification of the nRF51 BLE broadcast-mesh packet layer

    The program: [src/nRF51/rbc_mesh/src/mesh_packet.c] (259 lines).  It is
    the packet layer of the rbc_mesh broadcast mesh.  It has five parts that
    all work on one [mesh_packet_t] at a time:
    - the packet pool: [g_packet_pool], [g_packet_refs], [mesh_packet_init],
      [mesh_packet_acquire], [mesh_packet_ref_count_inc] and
      [mesh_packet_ref_count_dec];
    - the address stamper, [mesh_packet_set_local_addr];
    - the builder, [mesh_packet_build];
    - the AD-chain locator, [mesh_packet_adv_data_get],
      [mesh_packet_handle_get] and [mesh_packet_has_additional_data];
    - the sanitizer, [mesh_packet_adv_data_sanitize] and
      [mesh_packet_take_ownership].
    The builder and the sanitizer use the locator.  The builder and
    take-ownership call the stamper.  The pool only supplies slot addresses.
    It is shared by every context that handles packets (main loop, radio and
    SoftDevice events, the timeslot hook [mesh_packet_on_ts_begin]), and
    its functions take no lock.

    ** Files, in dependency order
    - [Prelude] (this file): the scope [mesh_scope], the result monad
      [exec] with its [let*] notation, faults ([OobAccess], [NullDeref],
      [AppError], [OutOfFuel]), byte memory as [list Z] indexed by [Z]
      ([load_byte], [store_byte], [store_bytes]), machine-width wrap
      ([u8], [u16], [u32]), little-endian 16-bit fields ([lo8], [hi8],
      [le16]), and the hint databases [mesh] and [mesh_rw].
    - [MeshTypes]: the constants of the headers and the packet record
      [mesh_packet] (header bit fields, address, 31-byte payload), with
      setters that truncate to the field width.  A [mesh_adv_data_t*] is a
      byte offset into the payload; its fields are read by
      [adv_data_length], [adv_data_type], [adv_mesh_uuid], [adv_handle] and
      [adv_version].
    - [Pool]: the counts [g_packet_refs] as a [list Z].  A packet reference
      is a 32-bit slot address.  The operations are [mesh_packet_init],
      [mesh_packet_acquire], [mesh_packet_ref_count_inc] and
      [mesh_packet_ref_count_dec], with the index computed by unsigned
      pointer subtraction as in the code.
    - [PoolSpec]: the spec's pool contract as a labelled transition
      relation [spec_step] on owner counts (a [list nat]), with its runs
      [spec_run].  [pool_call_exec] and [pool_run] read calls of the code
      as operations of the contract; [pool_abs] is the abstraction of the
      uint8 table.  These are the contract and its interface, not code, so
      they have no entry in the map of the manifest.
    - [Concurrency]: each pool call split into its accesses to
      [g_packet_refs] ([pc], [thread_step]): acquire is the free scan, then
      the store of 1; ref_count_inc is the read, then the write of [++];
      ref_count_dec is the zero check, then the read and the write of [--].
      Contexts run their calls under an explicit schedule of events
      ([run_sched]), and the timeslot hook [mesh_packet_on_ts_begin] is
      an event that does nothing.  The schedule machinery ([conc_event],
      [run_sched], [serial_sched], [call_atomic]) is not code and has no
      map entry.
    - [AddrStamp]: the typeclass [IdentityProvider] is the interface to
      [sd_ble_gap_address_get].  [mesh_packet_set_local_addr] is proved
      against the interface.  The FICR branch
      [mesh_packet_set_local_addr_ficr] reads the registers
      [DEVICEADDR[0..1]] in memory order ([le_split]).
    - [Locator]: the two [while] loops as fuel-bounded walks
      [adv_data_walk] and [additional_data_walk].  They are parametric in
      the element size [stride] by which the cursor moves: the code's
      pointer arithmetic on [mesh_adv_data_t*] is [stride = 31]
      ([mesh_packet_adv_data_get], [mesh_packet_has_additional_data]).
      Termination (C12), soundness (C13) and the relocation of sanitize
      (C22) are proved for every stride, so they hold of the code's.
    - [Builder]: [mesh_packet_build] over any [IdentityProvider].
    - [Sanitize]: the copy loop [move_forward], [adv_data_sanitize_with]
      and [take_ownership_with] for any stride, and their compiled
      instances [mesh_packet_adv_data_sanitize] and
      [mesh_packet_take_ownership].
    - [ChainSpec]: the locator of the spec as a pure function
      [spec_locate] over the AD chain [ad_offsets], and where the compiled
      locator agrees with it.
    - [Composition]: the operations together: the readers depend only on
      the payload, a build keeps a packet well-formed, and a packet
      built on one node and relayed by another keeps its value.
    - [PoolStore]: [g_packet_pool] itself, as a [list mesh_packet] indexed
      like [g_packet_refs].  A packet function called through a pointer
      into the pool reads and writes the slot [*p_packet] ([build_at],
      [handle_get_at]), so two holders of one pointer share one packet.  A
      pointer that is not the start of a slot is a fault in the region
      [PacketPool].  [two_owners] is a client: two contexts that each build
      into the packet they acquired and read it back.

    ** The theorems (claims C1-C32)
    - Pool (C1-C7): first-fit acquisition, exhaustion after N
      acquisitions, retain/release round trip, no underflow, fatal
      overflow, the off-by-one guard that lets the one-past-the-end slot
      through, and rejection of foreign pointers.
    - Address stamper (C8-C10): the error path, the success path, and the
      FICR branch: the stamped address is the low 48 bits of the
      DEVICEADDR registers, and TxAdd is bit 0 of DEVICEADDRTYPE.
    - Locator (C11-C15): what the compiled walk does (only offset 0 is
      ever examined), termination for every stride, soundness of a
      returned offset, and the foreign-data scan, with its out-of-bounds
      read on hostile input.
    - Builder (C16-C19): the error paths, a single-structure payload,
      the build/get-handle/read-back round trip, and no foreign data after
      a build.
    - Sanitizer (C20-C23): the copy loop equals [memmove], the compiled
      sanitize never relocates, relocation is right for any walk, and the
      compiled take-ownership keeps the foreign data of every packet whose
      first structure is not the application one.
    - Refinement (C24): the compiled locator agrees with the spec's
      locator [spec_locate] when the application structure is the first
      of the chain.
    - Pool contract (C25-C28): every returning call, and every returning
      sequence of calls, refines the contract; the owner counts are
      conserved over any run from init; and after all owners of a slot
      release it, the next acquisition succeeds (liveness).
    - Composition (C29): a built packet relayed by another node keeps
      its payload, length and handle and carries the relay's address.
    - Concurrency (C30-C31): without mutual exclusion, which the spec
      requires and the code does not take, two interleaved retains of one
      slot lose an increment, and two interleaved acquisitions return the
      same packet with a count of 1.  The lemma [serial_schedule_atomic]
      checks the split: under the serial schedule, the split calls compute
      exactly the functions of Pool.
    - Packet store (C32): after two serial acquisitions, each owner reads
      back the handle it built.  After the interleaved acquisitions, the
      second owner's build overwrites the first owner's packet.

    ** Fuel
    The locator's walk gets [locator_fuel] = 31 iterations.  The cursor
    starts at 0, grows by at least one byte per iteration and stops at 31,
    so 31 iterations are enough.  The scan gets [scan_fuel] = 256
    iterations.  Its bound [header.length - 7] is at most 248, because the
    length is a uint8, so 256 iterations are enough.  [locator_terminates]
    (C12) proves that [OutOfFuel] is never reached.
    The serial schedule gives each context three accesses.  That is the
    length of the longest call, ref_count_dec.  A call that has returned
    does not move, so the shorter calls and the early returns are covered.
    [thread_call_finish] proves that three accesses complete every call.

    ** Not modelled
    - Packet functions called on a pointer into the middle of a slot: the
      store model faults there ([PacketPool]) instead of reading a packet
      that straddles two slots.
    - Finer interleavings inside the free scan of [mesh_packet_acquire]:
      the scan is one access of the model.  Each of its reads is of a
      different count, and both races above need only the gap between the
      scan and the store.
    - The headers (mesh_packet.h, nrf_error.h, ble_gap.h) are not under
      src/.  Their constants and layouts are taken from the spec and the
      SDK.
    - A NULL pointer passed to [mesh_packet_has_additional_data] or
      [mesh_packet_take_ownership]: the code does not check for it, and the
      model takes a packet there. *)

From stdpp Require Import base list.
From Stdlib Require Import ZArith Lia.

Declare Scope mesh_scope.
Delimit Scope mesh_scope with mesh.
Open Scope Z_scope.

(** ** Faults: undefined or fatal behaviour of the C code

    A C access outside the object it addresses is undefined behaviour; the
    model makes it an explicit outcome instead of inventing a value.
    [AppError] is [APP_ERROR_CHECK] with a non-zero code, which does not
    return.  [NullDeref] is a dereference of a NULL pointer the code does
    not check.  [OutOfFuel] marks a loop model that ran out of iterations; the
    termination theorems show it never happens with the chosen fuel.
    [PacketPool] is [g_packet_pool]: an access through a packet pointer
    that is not the start of one of its slots. *)
Inductive region := Payload | RefTable | CallerBuffer | PacketPool.

Inductive fault :=
| OobAccess (r : region) (off : Z)
| NullDeref
| AppError (code : Z)
| OutOfFuel.

Inductive exec (A : Type) : Type :=
| Ret (a : A)
| Fault (f : fault).
Arguments Ret {A} a.
Arguments Fault {A} f.

#[export] Instance region_eq_dec : EqDecision region.
Proof. solve_decision. Defined.
#[export] Instance fault_eq_dec : EqDecision fault.
Proof. solve_decision. Defined.
#[export] Instance exec_eq_dec {A} `{EqDecision A} : EqDecision (exec A).
Proof. solve_decision. Defined.

Definition exec_bind {A B} (m : exec A) (k : A -> exec B) : exec B :=
  match m with
  | Ret a => k a
  | Fault f => Fault f
  end.

Notation "'let*' x ':=' m 'in' k" := (exec_bind m (fun x => k))
  (at level 10, x name, m at level 100, k at level 200) : mesh_scope.
Notation "'let*' ' p ':=' m 'in' k" :=
  (exec_bind m (fun x => match x with p => k end))
  (at level 10, p pattern, m at level 100, k at level 200) : mesh_scope.

Open Scope mesh_scope.

(** A pointer argument: [None] is NULL. *)
Definition deref {A B} (pp : option A) (f : A -> exec B) : exec B :=
  match pp with Some a => f a | None => Fault NullDeref end.

(** [no_fault m]: the execution returned normally. *)
Definition no_fault {A} (m : exec A) : bool :=
  match m with Ret _ => true | Fault _ => false end.

(** ** Fixed-width integers *)
Definition u8 (z : Z) : Z := z mod 256.
Definition u16 (z : Z) : Z := z mod 65536.
Definition u32 (z : Z) : Z := z mod 4294967296.

Definition is_byte (b : Z) : Prop := 0 <= b < 256.
Definition bytes_ok (l : list Z) : Prop := Forall is_byte l.

(** Little-endian halves of a 16-bit field, and their recombination (the
    Cortex-M0 is little-endian and the packed struct fields are read byte by
    byte). *)
Definition lo8 (v : Z) : Z := Z.land v 255.
Definition hi8 (v : Z) : Z := Z.land (Z.shiftr v 8) 255.
Definition le16 (lo hi : Z) : Z := Z.lor lo (Z.shiftl hi 8).

(** ** Byte memory indexed by C offsets *)
Definition zget (l : list Z) (i : Z) : option Z :=
  if i <? 0 then None else l !! Z.to_nat i.

Definition zset (l : list Z) (i : Z) (v : Z) : option (list Z) :=
  if (0 <=? i) && (i <? Z.of_nat (length l)) then Some (<[Z.to_nat i := v]> l)
  else None.

Definition load_byte (r : region) (l : list Z) (i : Z) : exec Z :=
  match zget l i with Some b => Ret b | None => Fault (OobAccess r i) end.

Definition store_byte (r : region) (l : list Z) (i v : Z) : exec (list Z) :=
  match zset l i v with Some l' => Ret l' | None => Fault (OobAccess r i) end.

(** [memcpy]-style store of consecutive bytes from offset [i]. *)
Fixpoint store_bytes (r : region) (l : list Z) (i : Z) (bs : list Z)
  : exec (list Z) :=
  match bs with
  | [] => Ret l
  | b :: bs' => let* l' := store_byte r l i b in store_bytes r l' (i + 1) bs'
  end.

(** ** Automation *)
Create HintDb mesh discriminated.
Create Rewrite HintDb mesh_rw.

Ltac exec_simpl :=
  repeat first
    [ progress cbn [exec_bind no_fault] in *
    | match goal with
      | H : Ret _ = Ret _ |- _ => injection H as H
      | H : Ret _ = Fault _ |- _ => discriminate H
      | H : Fault _ = Ret _ |- _ => discriminate H
      end ].

(** ** Generic lemmas *)
Section ExecLemmas.
Context {A B : Type}.

Lemma exec_bind_ret (a : A) (k : A -> exec B) : exec_bind (Ret a) k = k a.
Proof. reflexivity. Qed.

Lemma exec_bind_fault (f : fault) (k : A -> exec B) :
  exec_bind (Fault f) k = Fault f.
Proof. reflexivity. Qed.

Lemma exec_bind_Ret_inv (m : exec A) (k : A -> exec B) (b : B) :
  exec_bind m k = Ret b -> exists a, m = Ret a /\ k a = Ret b.
Proof. destruct m; cbn; [eauto | discriminate]. Qed.
End ExecLemmas.

#[export] Hint Rewrite @exec_bind_ret @exec_bind_fault : mesh_rw.

Lemma zget_Some (l : list Z) (i : Z) :
  0 <= i < Z.of_nat (length l) -> zget l i = l !! Z.to_nat i.
Proof. intros Hi. unfold zget. destruct (Z.ltb_spec i 0); [lia | done]. Qed.

Lemma zget_lt (l : list Z) (i : Z) :
  0 <= i < Z.of_nat (length l) -> exists b, zget l i = Some b.
Proof.
  intros Hi. rewrite zget_Some by done.
  apply lookup_lt_is_Some_2. lia.
Qed.

Lemma zget_None (l : list Z) (i : Z) :
  zget l i = None <-> i < 0 \/ Z.of_nat (length l) <= i.
Proof.
  unfold zget. destruct (Z.ltb_spec i 0); [split; auto|].
  rewrite lookup_ge_None. lia.
Qed.

Lemma zset_Some (l : list Z) (i v : Z) :
  0 <= i < Z.of_nat (length l) -> zset l i v = Some (<[Z.to_nat i := v]> l).
Proof.
  intros Hi. unfold zset.
  destruct (Z.leb_spec 0 i), (Z.ltb_spec i (Z.of_nat (length l))); cbn; auto; lia.
Qed.

Lemma zset_None (l : list Z) (i v : Z) :
  zset l i v = None <-> i < 0 \/ Z.of_nat (length l) <= i.
Proof.
  unfold zset.
  destruct (Z.leb_spec 0 i), (Z.ltb_spec i (Z.of_nat (length l))); cbn;
    split; intros; try discriminate; auto; lia.
Qed.

Lemma load_byte_ok r (l : list Z) i :
  0 <= i < Z.of_nat (length l) -> exists b, load_byte r l i = Ret b /\ zget l i = Some b.
Proof. intros Hi. destruct (zget_lt l i Hi) as [b Hb]. unfold load_byte. rewrite Hb. eauto. Qed.

Lemma store_byte_ok r (l : list Z) i v :
  0 <= i < Z.of_nat (length l) -> store_byte r l i v = Ret (<[Z.to_nat i := v]> l).
Proof. intros Hi. unfold store_byte. by rewrite zset_Some. Qed.

Lemma zset_Some_inv (l : list Z) (i v : Z) (l' : list Z) :
  zset l i v = Some l' ->
  0 <= i < Z.of_nat (length l) /\ l' = <[Z.to_nat i := v]> l.
Proof.
  unfold zset.
  destruct (Z.leb_spec 0 i), (Z.ltb_spec i (Z.of_nat (length l))); cbn;
    intros Hs; try discriminate; injection Hs as <-; split; auto; lia.
Qed.

Lemma store_bytes_length r (l : list Z) i bs l' :
  store_bytes r l i bs = Ret l' -> length l' = length l.
Proof.
  revert l i. induction bs as [|b bs IH]; intros l i H; cbn in H.
  - by injection H as <-.
  - unfold store_byte in H. destruct (zset l i b) as [l1|] eqn:E; [|discriminate].
    cbn in H. apply IH in H. rewrite H.
    apply zset_Some_inv in E as [_ ->]. by rewrite length_insert.
Qed.

#[export] Hint Resolve zget_Some zset_Some : mesh.

(** ** Little-endian 16-bit fields *)
Lemma land_255 (v : Z) : Z.land v 255 = v mod 256.
Proof. change 255 with (Z.ones 8). rewrite Z.land_ones by lia. reflexivity. Qed.

Lemma lo8_range (v : Z) : is_byte (lo8 v).
Proof. unfold is_byte, lo8. rewrite land_255. apply Z.mod_pos_bound. lia. Qed.

Lemma hi8_range (v : Z) : is_byte (hi8 v).
Proof. unfold is_byte, hi8. rewrite land_255. apply Z.mod_pos_bound. lia. Qed.

Lemma le16_add (lo hi : Z) :
  is_byte lo -> 0 <= hi -> le16 lo hi = lo + hi * 256.
Proof.
  unfold is_byte, le16. intros Hlo Hhi.
  rewrite Z.shiftl_mul_pow2 by lia. rewrite <- Z.add_nocarry_lor; [reflexivity|].
  apply Z.bits_inj'. intros n Hn. rewrite Z.land_spec, Z.bits_0.
  destruct (Z.ltb_spec n 8).
  - rewrite Z.mul_pow2_bits_low by lia. apply andb_false_r.
  - rewrite <- (Z.mod_small lo (2 ^ 8)) by lia.
    rewrite Z.mod_pow2_bits_high by lia. reflexivity.
Qed.

(** Writing a 16-bit field as two bytes and reading it back gives the
    field's value truncated to 16 bits. *)
Lemma le16_lo8_hi8 (v : Z) : le16 (lo8 v) (hi8 v) = u16 v.
Proof.
  rewrite le16_add by (apply lo8_range || (unfold hi8; rewrite land_255; apply Z.mod_pos_bound; lia)).
  unfold lo8, hi8, u16. rewrite !land_255, Z.shiftr_div_pow2 by lia.
  change (2 ^ 8) with 256.
  change 65536 with (256 * 256).
  rewrite Z.rem_mul_r by lia. lia.
Qed.

Lemma le16_range (lo hi : Z) : is_byte lo -> is_byte hi -> 0 <= le16 lo hi < 65536.
Proof. intros Hlo Hhi. rewrite le16_add by (unfold is_byte in *; lia). unfold is_byte in *. lia. Qed.

Lemma u8_range (z : Z) : is_byte (u8 z).
Proof. unfold is_byte, u8. apply Z.mod_pos_bound. lia. Qed.

Lemma u8_small (z : Z) : 0 <= z < 256 -> u8 z = z.
Proof. intros. unfold u8. by apply Z.mod_small. Qed.

Lemma u16_small (z : Z) : 0 <= z < 65536 -> u16 z = z.
Proof. intros. unfold u16. by apply Z.mod_small. Qed.

(** A store into a bit field of width [w] keeps the low [w] bits. *)
Lemma land_ones_range (v w : Z) : 0 <= w -> 0 <= Z.land v (Z.ones w) < 2 ^ w.
Proof. intros Hw. rewrite Z.land_ones by lia. apply Z.mod_pos_bound. lia. Qed.

#[export] Hint Resolve lo8_range hi8_range u8_range : mesh.

Lemma store_byte_Ret r (l : list Z) i v l' :
  store_byte r l i v = Ret l' -> l' = <[Z.to_nat i := v]> l.
Proof.
  unfold store_byte. destruct (zset l i v) eqn:E; [|discriminate].
  intros [= <-]. by apply zset_Some_inv in E as [_ ->].
Qed.

(** [store_bytes] inside the list writes the bytes over the range. *)
Lemma store_bytes_app r (l : list Z) (i : nat) (bs : list Z) :
  (i + length bs <= length l)%nat ->
  store_bytes r l (Z.of_nat i) bs = Ret (take i l ++ bs ++ drop (i + length bs) l).
Proof.
  revert l i. induction bs as [|b bs IH]; intros l i Hlen; cbn [store_bytes length] in *.
  - by rewrite app_nil_l, Nat.add_0_r, take_drop.
  - rewrite store_byte_ok by lia. cbn [exec_bind]. rewrite Nat2Z.id.
    replace (Z.of_nat i + 1) with (Z.of_nat (S i)) by lia.
    rewrite IH by (rewrite length_insert; lia).
    rewrite insert_take_drop by lia.
    rewrite take_app_ge, drop_app_ge; rewrite length_take; try lia.
    replace (S i - i `min` length l)%nat with 1%nat by lia.
    replace (S i + length bs - i `min` length l)%nat with (S (length bs)) by lia.
    rewrite <- app_assoc. cbn. rewrite drop_drop.
    by replace (S i + length bs)%nat with (i + S (length bs))%nat by lia.
Qed.
