(* ===== verification/MeshTypes.v ===== *)
(** * MeshTypes: the data of mesh_packet.h

    The constants and types that mesh_packet.c takes from mesh_packet.h,
    rbc_mesh.h, nrf_error.h and ble_gap.h.  Those headers are not part of
    the sources under src/; their values are modelled from the spec (wire
    format of section 6) and the Nordic SDK definitions, and listed as such
    in the manifest.  The packet [mesh_packet] is the record
    [mesh_packet_t]; the application AD structure [mesh_adv_data_t] is not a
    separate value but a view of the payload at some byte offset, exactly as
    the C code casts [&payload[k]] to [mesh_adv_data_t*]. *)

From stdpp Require Import base list.
From Stdlib Require Import ZArith Lia.
From S2P Require Import Prelude.

Open Scope Z_scope.
Open Scope mesh_scope.

(** ** Constants *)
Definition BLE_ADV_PACKET_PAYLOAD_MAX_LENGTH : Z := 31.
Definition RBC_MESH_VALUE_MAX_LEN : Z := 23.
Definition BLE_GAP_ADDR_LEN : Z := 6.
(** type tag (1) + uuid (2) + handle (2) + version (2) *)
Definition MESH_PACKET_ADV_OVERHEAD : Z := 7.
(** address (6) + AD length byte (1) + [MESH_PACKET_ADV_OVERHEAD] *)
Definition MESH_PACKET_OVERHEAD : Z := BLE_GAP_ADDR_LEN + 1 + MESH_PACKET_ADV_OVERHEAD.
Definition MESH_ADV_DATA_TYPE : Z := 22.        (* 0x16, service data *)
Definition MESH_UUID : Z := 65252.              (* 0xFEE4 *)
Definition BLE_PACKET_TYPE_ADV_NONCONN_IND : Z := 2.
Definition RBC_MESH_INVALID_HANDLE : Z := 65535. (* 0xFFFF *)

Definition NRF_SUCCESS : Z := 0.
Definition NRF_ERROR_NO_MEM : Z := 4.
Definition NRF_ERROR_INVALID_LENGTH : Z := 9.
Definition NRF_ERROR_INVALID_DATA : Z := 11.
Definition NRF_ERROR_NULL : Z := 14.

(** [sizeof(mesh_adv_data_t)] of the packed struct
    [{ uint8 adv_data_length; uint8 adv_data_type; uint16 mesh_uuid;
       uint16 handle; uint16 version; uint8 data[RBC_MESH_VALUE_MAX_LEN]; }]:
    the unit by which C pointer arithmetic on a [mesh_adv_data_t*] moves. *)
Definition sizeof_mesh_adv_data_t : Z := 8 + RBC_MESH_VALUE_MAX_LEN.

(** [sizeof(mesh_packet_t)]: 3 header bytes (S0, LENGTH, S1), the 6-byte
    address and the 31-byte payload. *)
Definition sizeof_mesh_packet_t : Z :=
  3 + BLE_GAP_ADDR_LEN + BLE_ADV_PACKET_PAYLOAD_MAX_LENGTH.

(** ** The packet [mesh_packet_t]

    The header is [ble_packet_header_t]: a 4-bit PDU type, a 1-bit address
    type (TxAdd) and the 8-bit length; the reserved bits are never touched
    by mesh_packet.c and are left out. *)
Record mesh_packet := mk_packet {
  hdr_type : Z;          (* 4-bit field *)
  hdr_addr_type : Z;     (* 1-bit field *)
  hdr_length : Z;        (* uint8_t *)
  pkt_addr : list Z;     (* uint8_t addr[BLE_GAP_ADDR_LEN] *)
  pkt_payload : list Z   (* uint8_t payload[BLE_ADV_PACKET_PAYLOAD_MAX_LENGTH] *)
}.

#[export] Instance mesh_packet_eq_dec : EqDecision mesh_packet.
Proof. solve_decision. Defined.

(** Stores into the header's bit fields truncate to the field width. *)
Definition set_hdr_type (p : mesh_packet) (v : Z) : mesh_packet :=
  {| hdr_type := Z.land v 15; hdr_addr_type := hdr_addr_type p;
     hdr_length := hdr_length p; pkt_addr := pkt_addr p; pkt_payload := pkt_payload p |}.
Definition set_hdr_addr_type (p : mesh_packet) (v : Z) : mesh_packet :=
  {| hdr_type := hdr_type p; hdr_addr_type := Z.land v 1;
     hdr_length := hdr_length p; pkt_addr := pkt_addr p; pkt_payload := pkt_payload p |}.
Definition set_hdr_length (p : mesh_packet) (v : Z) : mesh_packet :=
  {| hdr_type := hdr_type p; hdr_addr_type := hdr_addr_type p;
     hdr_length := u8 v; pkt_addr := pkt_addr p; pkt_payload := pkt_payload p |}.
Definition set_addr (p : mesh_packet) (a : list Z) : mesh_packet :=
  {| hdr_type := hdr_type p; hdr_addr_type := hdr_addr_type p;
     hdr_length := hdr_length p; pkt_addr := a; pkt_payload := pkt_payload p |}.
Definition set_payload (p : mesh_packet) (l : list Z) : mesh_packet :=
  {| hdr_type := hdr_type p; hdr_addr_type := hdr_addr_type p;
     hdr_length := hdr_length p; pkt_addr := pkt_addr p; pkt_payload := l |}.

(** Well-formedness: the fields have their C widths and the arrays their
    declared lengths. *)
Definition packet_wf (p : mesh_packet) : Prop :=
  0 <= hdr_type p < 16 /\ 0 <= hdr_addr_type p < 2 /\ is_byte (hdr_length p) /\
  Z.of_nat (length (pkt_addr p)) = BLE_GAP_ADDR_LEN /\ bytes_ok (pkt_addr p) /\
  Z.of_nat (length (pkt_payload p)) = BLE_ADV_PACKET_PAYLOAD_MAX_LENGTH /\
  bytes_ok (pkt_payload p).

(** ** Fields of a [mesh_adv_data_t*] pointing at payload offset [a] *)
Definition payload_byte (p : mesh_packet) (off : Z) : exec Z :=
  load_byte Payload (pkt_payload p) off.

Definition payload_u16 (p : mesh_packet) (off : Z) : exec Z :=
  let* lo := payload_byte p off in
  let* hi := payload_byte p (off + 1) in
  Ret (le16 lo hi).

Definition adv_data_length (p : mesh_packet) (a : Z) : exec Z := payload_byte p a.
Definition adv_data_type (p : mesh_packet) (a : Z) : exec Z := payload_byte p (a + 1).
Definition adv_mesh_uuid (p : mesh_packet) (a : Z) : exec Z := payload_u16 p (a + 2).
Definition adv_handle (p : mesh_packet) (a : Z) : exec Z := payload_u16 p (a + 4).
Definition adv_version (p : mesh_packet) (a : Z) : exec Z := payload_u16 p (a + 6).
(** [n] consecutive payload bytes from [off]. *)
Fixpoint payload_bytes (p : mesh_packet) (off : Z) (n : nat) : exec (list Z) :=
  match n with
  | O => Ret []
  | S n' => let* b := payload_byte p off in
            let* bs := payload_bytes p (off + 1) n' in Ret (b :: bs)
  end.
(** [data[0..n)] of the structure at [a] *)
Definition adv_data_bytes (p : mesh_packet) (a : Z) (n : nat) : exec (list Z) :=
  payload_bytes p (a + 8) n.

(** The loop condition of the locator and of the foreign-data scan:
    [adv_data_type != MESH_ADV_DATA_TYPE || mesh_uuid != MESH_UUID], with
    C's short-circuit: the uuid is only read when the type matches.
    [adv_is_mesh] is the negation, i.e. "this is the application AD". *)
Definition adv_is_mesh (p : mesh_packet) (a : Z) : exec bool :=
  let* t := adv_data_type p a in
  if negb (t =? MESH_ADV_DATA_TYPE) then Ret false
  else let* u := adv_mesh_uuid p a in Ret (u =? MESH_UUID).

(** ** Lemmas on payload access *)
Lemma payload_byte_in (p : mesh_packet) (off : Z) :
  0 <= off < Z.of_nat (length (pkt_payload p)) ->
  exists b, payload_byte p off = Ret b /\ pkt_payload p !! Z.to_nat off = Some b.
Proof.
  intros Hoff. destruct (load_byte_ok Payload (pkt_payload p) off Hoff) as (b & Hb & Hz).
  exists b. split; [exact Hb|]. by rewrite <- zget_Some.
Qed.

Lemma payload_byte_out (p : mesh_packet) (off : Z) :
  off < 0 \/ Z.of_nat (length (pkt_payload p)) <= off ->
  payload_byte p off = Fault (OobAccess Payload off).
Proof.
  intros Hoff. unfold payload_byte, load_byte.
  by rewrite (proj2 (zget_None (pkt_payload p) off) Hoff).
Qed.

Lemma payload_byte_lookup (p : mesh_packet) (off : Z) (b : Z) :
  0 <= off -> pkt_payload p !! Z.to_nat off = Some b -> payload_byte p off = Ret b.
Proof.
  intros Hoff Hb. unfold payload_byte, load_byte, zget.
  destruct (Z.ltb_spec off 0); [lia|]. by rewrite Hb.
Qed.

Lemma payload_bytes_take (p : mesh_packet) (off : Z) (n : nat) :
  0 <= off -> off + Z.of_nat n <= Z.of_nat (length (pkt_payload p)) ->
  payload_bytes p off n = Ret (take n (drop (Z.to_nat off) (pkt_payload p))).
Proof.
  revert off. induction n as [|n IH]; intros off H0 Hn; [reflexivity|].
  cbn [payload_bytes].
  destruct (payload_byte_in p off) as (b & -> & Hb); [lia|]. cbn.
  rewrite IH by lia. cbn.
  rewrite (drop_S _ b (Z.to_nat off)) by exact Hb.
  replace (Z.to_nat (off + 1)) with (S (Z.to_nat off)) by lia. reflexivity.
Qed.

(** The handle, version and uuid fields read back whatever 16-bit value was
    written as two little-endian bytes. *)
Lemma payload_u16_lookup (p : mesh_packet) (off lo hi : Z) :
  0 <= off ->
  pkt_payload p !! Z.to_nat off = Some lo ->
  pkt_payload p !! Z.to_nat (off + 1) = Some hi ->
  payload_u16 p off = Ret (le16 lo hi).
Proof.
  intros Ho Hlo Hhi. unfold payload_u16.
  rewrite (payload_byte_lookup p off lo), (payload_byte_lookup p (off + 1) hi) by (done || lia).
  reflexivity.
Qed.

Lemma sizeof_mesh_packet_t_eq : sizeof_mesh_packet_t = 40.
Proof. reflexivity. Qed.
Lemma sizeof_mesh_adv_data_t_eq : sizeof_mesh_adv_data_t = 31.
Proof. reflexivity. Qed.
Lemma MESH_PACKET_OVERHEAD_eq : MESH_PACKET_OVERHEAD = 14.
Proof. reflexivity. Qed.

(** Unfold the header constants to numerals for [lia]. *)
Ltac unfold_consts :=
  rewrite ?sizeof_mesh_packet_t_eq, ?sizeof_mesh_adv_data_t_eq,
    ?MESH_PACKET_OVERHEAD_eq in *;
  unfold MESH_PACKET_ADV_OVERHEAD, BLE_GAP_ADDR_LEN, BLE_ADV_PACKET_PAYLOAD_MAX_LENGTH,
    RBC_MESH_VALUE_MAX_LEN in *.

(** Decide [packet_wf] on a concrete packet. *)
Ltac solve_packet_wf :=
  unfold packet_wf, bytes_ok, is_byte; unfold_consts; cbn;
  repeat (split || constructor); lia.
