(* ===== verification/Pool.v ===== *)
(** * Pool: the packet pool and its reference counts

    Models [g_packet_pool], [g_packet_refs], [mesh_packet_init],
    [mesh_packet_acquire], [mesh_packet_ref_count_inc] and
    [mesh_packet_ref_count_dec] (mesh_packet.c lines 43-104).

    The state is the reference-count array [g_packet_refs], a [list Z] of
    uint8 values.  The packets themselves are only addressed: a packet
    reference is the 32-bit address of a slot of [g_packet_pool], and the
    two reference-count functions recover the slot index by the same
    unsigned pointer arithmetic as the C code.  The pool's size and base
    address are the fields of [pool_config]: the theorems hold for every
    well-formed configuration. *)

From stdpp Require Import base list.
From Stdlib Require Import ZArith Lia.
From S2P Require Import Prelude MeshTypes.

Open Scope Z_scope.
Open Scope mesh_scope.

Record pool_config := mk_pool_config {
  MESH_PACKET_POOL_SIZE : Z;
  pool_base : Z   (* (uint32_t) &g_packet_pool[0] *)
}.

(** The pool fits in the 32-bit address space, with room for one more
    slot past its end (so that a pointer below the pool can never wrap
    around to a small index). *)
Definition pool_config_wf (cfg : pool_config) : Prop :=
  0 < MESH_PACKET_POOL_SIZE cfg < 256 /\ 0 <= pool_base cfg /\
  pool_base cfg + (MESH_PACKET_POOL_SIZE cfg + 1) * sizeof_mesh_packet_t <= 4294967296.

(** [&g_packet_pool[i]] *)
Definition packet_addr (cfg : pool_config) (i : Z) : Z :=
  pool_base cfg + i * sizeof_mesh_packet_t.

(** [(((uint32_t) p) - ((uint32_t) &g_packet_pool[0])) / sizeof(mesh_packet_t)] *)
Definition packet_index (cfg : pool_config) (p : Z) : Z :=
  u32 (u32 p - u32 (pool_base cfg)) / sizeof_mesh_packet_t.

(** Invariant of [g_packet_refs]: [MESH_PACKET_POOL_SIZE] uint8 counts. *)
Definition refs_wf (cfg : pool_config) (refs : list Z) : Prop :=
  Z.of_nat (length refs) = MESH_PACKET_POOL_SIZE cfg /\ bytes_ok refs.

(** ** Operations *)

(** [mesh_packet_init]: every count reset to 0. *)
Definition mesh_packet_init (cfg : pool_config) : list Z :=
  replicate (Z.to_nat (MESH_PACKET_POOL_SIZE cfg)) 0.

(** The loop of [mesh_packet_acquire]: the first index whose count is 0. *)
Fixpoint find_free (i : nat) (refs : list Z) : option nat :=
  match refs with
  | [] => None
  | r :: rs => if r =? 0 then Some i else find_free (S i) rs
  end.

(** [mesh_packet_acquire]: returns the slot's address (the [*pp_packet]
    out-parameter, [None] when the C function returns [false]) and the new
    counts. *)
Definition mesh_packet_acquire (cfg : pool_config) (refs : list Z)
  : option Z * list Z :=
  match find_free 0 refs with
  | Some i => (Some (packet_addr cfg (Z.of_nat i)), <[i := 1]> refs)
  | None => (None, refs)
  end.

(** [mesh_packet_ref_count_inc].  The guard is [index > POOL_SIZE], as in
    the code; the increment wraps at 8 bits and a wrap to 0 calls
    [APP_ERROR_CHECK(NRF_ERROR_NO_MEM)], which does not return. *)
Definition mesh_packet_ref_count_inc (cfg : pool_config) (p : Z) (refs : list Z)
  : exec (bool * list Z) :=
  let index := packet_index cfg p in
  if index >? MESH_PACKET_POOL_SIZE cfg then Ret (false, refs)
  else
    let* r := load_byte RefTable refs index in
    let* refs' := store_byte RefTable refs index (u8 (r + 1)) in
    if u8 (r + 1) =? 0 then Fault (AppError NRF_ERROR_NO_MEM)
    else Ret (true, refs').

(** [mesh_packet_ref_count_dec]: refuses to decrement a count of 0. *)
Definition mesh_packet_ref_count_dec (cfg : pool_config) (p : Z) (refs : list Z)
  : exec (bool * list Z) :=
  let index := packet_index cfg p in
  if index >? MESH_PACKET_POOL_SIZE cfg then Ret (false, refs)
  else
    let* r := load_byte RefTable refs index in
    if r =? 0 then Ret (false, refs)
    else
      let* refs' := store_byte RefTable refs index (u8 (r - 1)) in
      Ret (true, refs').

(** [k] acquisitions in a row, collecting the returned addresses. *)
Fixpoint acquire_n (cfg : pool_config) (k : nat) (refs : list Z)
  : list (option Z) * list Z :=
  match k with
  | O => ([], refs)
  | S k' => let (a, refs1) := mesh_packet_acquire cfg refs in
            let (as_, refs2) := acquire_n cfg k' refs1 in (a :: as_, refs2)
  end.

(** ** Lemmas: the free-slot scan *)
Lemma find_free_shift (k : nat) (refs : list Z) :
  find_free k refs = Nat.add k <$> find_free 0 refs.
Proof.
  revert k. induction refs as [|r rs IH]; intros k; cbn; [done|].
  destruct (r =? 0); [cbn; f_equal; lia|].
  rewrite (IH (S k)), (IH 1%nat). destruct (find_free 0 rs); cbn; [f_equal; lia|done].
Qed.

Lemma find_free_Some (refs : list Z) (i : nat) :
  find_free 0 refs = Some i <->
  refs !! i = Some 0 /\ forall j r, (j < i)%nat -> refs !! j = Some r -> r <> 0.
Proof.
  revert i. induction refs as [|r rs IH]; intros i; cbn.
  { split; [discriminate|]. intros [H _]. by rewrite lookup_nil in H. }
  destruct (Z.eqb_spec r 0) as [->|Hr].
  - split.
    + intros [= <-]. split; [done|]. intros j r' Hj. lia.
    + intros [Hi Hlt]. destruct i as [|i]; [done|].
      exfalso. apply (Hlt 0%nat 0); [lia|done|done].
  - rewrite find_free_shift, fmap_Some. split.
    + intros (i' & E & ->). apply IH in E as [E1 E2]. cbn. split; [done|].
      intros [|j] r' Hj Hr'; [by injection Hr' as <-|]. apply (E2 j); [lia|done].
    + intros [Hi Hlt]. destruct i as [|i]; [by injection Hi as ->|].
      exists i. split; [|done]. apply IH. split; [done|].
      intros j r' Hj. apply (Hlt (S j)). lia.
Qed.

Lemma find_free_None (refs : list Z) :
  find_free 0 refs = None <-> Forall (fun r => r <> 0) refs.
Proof.
  induction refs as [|r rs IH]; cbn; [split; auto|].
  rewrite Forall_cons, <- IH, find_free_shift.
  destruct (Z.eqb_spec r 0); [split; [discriminate|tauto]|].
  destruct (find_free 0 rs); cbn; naive_solver.
Qed.

(** ** Lemmas: pointer to index *)
Lemma packet_index_addr (cfg : pool_config) (i k : Z) :
  pool_config_wf cfg -> 0 <= i <= MESH_PACKET_POOL_SIZE cfg ->
  0 <= k < sizeof_mesh_packet_t ->
  packet_index cfg (packet_addr cfg i + k) = i.
Proof.
  unfold pool_config_wf, packet_index, packet_addr, sizeof_mesh_packet_t,
    BLE_GAP_ADDR_LEN, BLE_ADV_PACKET_PAYLOAD_MAX_LENGTH, u32.
  intros (HN & Hb & Hend) Hi Hk.
  rewrite (Z.mod_small (pool_base cfg + _ + k)) by nia.
  rewrite (Z.mod_small (pool_base cfg)) by lia.
  rewrite Z.mod_small by nia.
  replace (pool_base cfg + i * (3 + 6 + 31) + k - pool_base cfg) with (k + i * 40) by lia.
  rewrite Z.div_add by lia. rewrite Z.div_small by lia. lia.
Qed.

Lemma load_refs_slot (cfg : pool_config) (refs : list Z) (i : Z) :
  refs_wf cfg refs -> 0 <= i < MESH_PACKET_POOL_SIZE cfg ->
  exists r, load_byte RefTable refs i = Ret r /\ refs !! Z.to_nat i = Some r /\ is_byte r.
Proof.
  intros [Hlen Hok] Hi. destruct (load_byte_ok RefTable refs i) as (r & Hr & Hz); [lia|].
  rewrite zget_Some in Hz by lia. exists r. repeat split; [done|done| |];
    eapply (Forall_lookup_1 _ _ _ _ Hok Hz).
Qed.

Lemma refs_wf_insert (cfg : pool_config) (refs : list Z) (i : nat) (v : Z) :
  refs_wf cfg refs -> is_byte v -> refs_wf cfg (<[i := v]> refs).
Proof.
  intros [Hlen Hok] Hv. split; [by rewrite length_insert|].
  by apply Forall_insert.
Qed.

#[export] Hint Resolve refs_wf_insert : mesh.

(** The reference-count functions on the address of slot [i] (plus any
    offset [k] inside the slot) work on [g_packet_refs[i]]. *)
Section SlotOps.
Context (cfg : pool_config) (Hcfg : pool_config_wf cfg).
Context (refs : list Z) (Hrefs : refs_wf cfg refs).
Context (i k : Z) (Hi : 0 <= i < MESH_PACKET_POOL_SIZE cfg)
        (Hk : 0 <= k < sizeof_mesh_packet_t).

Lemma slot_guard : (packet_index cfg (packet_addr cfg i + k) >? MESH_PACKET_POOL_SIZE cfg) = false.
Proof. rewrite packet_index_addr by (done || lia). rewrite Z.gtb_ltb. apply Z.ltb_ge. lia. Qed.

Lemma ref_count_inc_slot (r : Z) :
  refs !! Z.to_nat i = Some r -> r < 255 ->
  mesh_packet_ref_count_inc cfg (packet_addr cfg i + k) refs
  = Ret (true, <[Z.to_nat i := r + 1]> refs).
Proof.
  intros Hr Hlt. unfold mesh_packet_ref_count_inc. rewrite slot_guard.
  rewrite packet_index_addr by (done || lia).
  destruct (load_refs_slot cfg refs i Hrefs Hi) as (r' & -> & Hr' & Hb).
  rewrite Hr in Hr'. injection Hr' as <-. unfold is_byte in Hb. cbn.
  rewrite store_byte_ok by (destruct Hrefs; lia). cbn.
  rewrite u8_small by lia. destruct (Z.eqb_spec (r + 1) 0); [lia|done].
Qed.

Lemma ref_count_inc_rollover :
  refs !! Z.to_nat i = Some 255 ->
  mesh_packet_ref_count_inc cfg (packet_addr cfg i + k) refs
  = Fault (AppError NRF_ERROR_NO_MEM).
Proof.
  intros Hr. unfold mesh_packet_ref_count_inc. rewrite slot_guard.
  rewrite packet_index_addr by (done || lia).
  destruct (load_refs_slot cfg refs i Hrefs Hi) as (r' & -> & Hr' & _).
  rewrite Hr in Hr'. injection Hr' as <-. cbn.
  by rewrite store_byte_ok by (destruct Hrefs; lia).
Qed.

Lemma ref_count_dec_slot (r : Z) :
  refs !! Z.to_nat i = Some r ->
  mesh_packet_ref_count_dec cfg (packet_addr cfg i + k) refs
  = if r =? 0 then Ret (false, refs) else Ret (true, <[Z.to_nat i := r - 1]> refs).
Proof.
  intros Hr. unfold mesh_packet_ref_count_dec. rewrite slot_guard.
  rewrite packet_index_addr by (done || lia).
  destruct (load_refs_slot cfg refs i Hrefs Hi) as (r' & -> & Hr' & Hb).
  rewrite Hr in Hr'. injection Hr' as <-. unfold is_byte in Hb. cbn.
  destruct (Z.eqb_spec r 0); [done|].
  rewrite store_byte_ok by (destruct Hrefs; lia). cbn.
  by rewrite u8_small by lia.
Qed.
End SlotOps.

(** ** Properties of the pool *)

(** (C1) [mesh_packet_acquire] is a first-fit allocator: on success it
    returns the address of the lowest-indexed slot whose count is 0, every
    slot before it is in use, and only that slot's count changes (to 1); it
    fails, changing nothing, exactly when every count is non-zero.  In
    particular a slot in use is never handed out. *)
Theorem acquire_first_fit (cfg : pool_config) (refs : list Z) :
  match mesh_packet_acquire cfg refs with
  | (Some a, refs') =>
      exists i : nat, a = packet_addr cfg (Z.of_nat i) /\ refs !! i = Some 0 /\
        (forall j r, (j < i)%nat -> refs !! j = Some r -> r <> 0) /\
        refs' = <[i := 1]> refs
  | (None, refs') => refs' = refs /\ Forall (fun r => r <> 0) refs
  end.
Proof.
  unfold mesh_packet_acquire. destruct (find_free 0 refs) as [i|] eqn:E.
  - apply find_free_Some in E as [E1 E2]. eauto 10.
  - by apply find_free_None in E.
Qed.

Lemma find_free_full_prefix (k : nat) (l : list Z) :
  find_free 0 (replicate k 1 ++ 0 :: l) = Some k.
Proof.
  apply find_free_Some. split.
  - rewrite lookup_app_r; rewrite length_replicate; [|lia]. by rewrite Nat.sub_diag.
  - intros j r Hj. rewrite lookup_app_l by (rewrite length_replicate; lia).
    rewrite lookup_replicate. intros [-> _]. lia.
Qed.

Lemma insert_full_prefix (k : nat) (l : list Z) :
  <[k := 1]> (replicate k 1 ++ 0 :: l) = replicate (S k) 1 ++ l.
Proof.
  rewrite insert_app_r_alt; rewrite length_replicate; [|lia].
  rewrite Nat.sub_diag. change (<[0%nat:=1]> (0 :: l)) with (1 :: l).
  by rewrite replicate_S_end, <- app_assoc.
Qed.

Lemma acquire_full (cfg : pool_config) (n : nat) :
  mesh_packet_acquire cfg (replicate n 1) = (None, replicate n 1).
Proof.
  unfold mesh_packet_acquire.
  rewrite (proj2 (find_free_None _)); [done|].
  apply Forall_replicate. lia.
Qed.

(** (C2) Exhaustion: starting from [mesh_packet_init], the first
    [MESH_PACKET_POOL_SIZE] acquisitions succeed and return the slots
    [0, 1, ..., N-1] in order, and the next one fails; afterwards every
    count is 1. *)
Theorem acquire_exhaustion (cfg : pool_config) :
  let N := Z.to_nat (MESH_PACKET_POOL_SIZE cfg) in
  acquire_n cfg (S N) (mesh_packet_init cfg)
  = (map (fun j => Some (packet_addr cfg (Z.of_nat j))) (seq 0 N) ++ [None],
     replicate N 1).
Proof.
  cbn zeta. unfold mesh_packet_init.
  generalize (Z.to_nat (MESH_PACKET_POOL_SIZE cfg)) as N. intros N.
  enough (Hgen : forall k m, acquire_n cfg (S m) (replicate k 1 ++ replicate m 0)
    = (map (fun j => Some (packet_addr cfg (Z.of_nat j))) (seq k m) ++ [None],
       replicate (k + m) 1)) by exact (Hgen 0%nat N).
  intros k m. revert k. induction m as [|m IH]; intros k.
  - cbn. rewrite !app_nil_r, Nat.add_0_r, acquire_full. reflexivity.
  - assert (Hacq : mesh_packet_acquire cfg (replicate k 1 ++ replicate (S m) 0)
      = (Some (packet_addr cfg (Z.of_nat k)), replicate (S k) 1 ++ replicate m 0)).
    { unfold mesh_packet_acquire.
      by rewrite replicate_S, find_free_full_prefix, insert_full_prefix. }
    change (acquire_n cfg (S (S m)) (replicate k 1 ++ replicate (S m) 0)) with
      (let (a, refs1) := mesh_packet_acquire cfg (replicate k 1 ++ replicate (S m) 0) in
       let (as_, refs2) := acquire_n cfg (S m) refs1 in (a :: as_, refs2)).
    rewrite Hacq, IH. cbn. by rewrite Nat.add_succ_r.
Qed.

(** A pool of two slots at the start of the nRF51's RAM. *)
Definition pool2 : pool_config := mk_pool_config 2 536870912.

(** The spec's scenario on a pool of two slots: two acquisitions
    succeed, the third fails; after one release the next acquisition
    succeeds again and returns the freed slot. *)
Example pool2_scenario :
  let s0 := mesh_packet_init pool2 in
  mesh_packet_acquire pool2 s0 = (Some (packet_addr pool2 0), [1; 0]) /\
  mesh_packet_acquire pool2 [1; 0] = (Some (packet_addr pool2 1), [1; 1]) /\
  mesh_packet_acquire pool2 [1; 1] = (None, [1; 1]) /\
  mesh_packet_ref_count_dec pool2 (packet_addr pool2 0) [1; 1] = Ret (true, [0; 1]) /\
  mesh_packet_acquire pool2 [0; 1] = (Some (packet_addr pool2 0), [1; 1]).
Proof. vm_compute. repeat split. Qed.

(** (C3) Retain then release: on the address of a slot (or any byte inside
    it, the code's "force alignment"), [mesh_packet_ref_count_inc]
    followed by [mesh_packet_ref_count_dec] both succeed and restore the
    counts exactly, provided the count is below 255. *)
Theorem ref_count_inc_dec_roundtrip (cfg : pool_config) (refs : list Z) (i k r : Z) :
  pool_config_wf cfg -> refs_wf cfg refs ->
  0 <= i < MESH_PACKET_POOL_SIZE cfg -> 0 <= k < sizeof_mesh_packet_t ->
  refs !! Z.to_nat i = Some r -> r < 255 ->
  exists refs1,
    mesh_packet_ref_count_inc cfg (packet_addr cfg i + k) refs = Ret (true, refs1) /\
    refs1 !! Z.to_nat i = Some (r + 1) /\
    mesh_packet_ref_count_dec cfg (packet_addr cfg i + k) refs1 = Ret (true, refs).
Proof.
  intros Hcfg Hrefs Hi Hk Hr Hlt.
  assert (Hlen : (Z.to_nat i < length refs)%nat) by (destruct Hrefs; lia).
  assert (Hb : is_byte r) by (destruct Hrefs as [_ Hok]; exact (Forall_lookup_1 _ _ _ _ Hok Hr)).
  exists (<[Z.to_nat i := r + 1]> refs). split; [|split].
  - by apply ref_count_inc_slot.
  - by apply list_lookup_insert_eq.
  - assert (Hb1 : is_byte (r + 1)) by (unfold is_byte in *; lia).
    rewrite (ref_count_dec_slot cfg Hcfg _ (refs_wf_insert cfg refs _ _ Hrefs Hb1)
              i k Hi Hk (r + 1)) by (by apply list_lookup_insert_eq).
    destruct (Z.eqb_spec (r + 1) 0); [unfold is_byte in Hb; lia|].
    rewrite list_insert_insert_eq. replace (r + 1 - 1) with r by lia.
    by rewrite list_insert_id.
Qed.

(** (C4) Release never underflows: on a slot whose count is 0,
    [mesh_packet_ref_count_dec] returns [false] and changes nothing; on a
    positive count it decrements it by one. *)
Theorem ref_count_dec_no_underflow (cfg : pool_config) (refs : list Z) (i k r : Z) :
  pool_config_wf cfg -> refs_wf cfg refs ->
  0 <= i < MESH_PACKET_POOL_SIZE cfg -> 0 <= k < sizeof_mesh_packet_t ->
  refs !! Z.to_nat i = Some r ->
  mesh_packet_ref_count_dec cfg (packet_addr cfg i + k) refs
  = (if r =? 0 then Ret (false, refs) else Ret (true, <[Z.to_nat i := r - 1]> refs)).
Proof. intros. by apply ref_count_dec_slot. Qed.

(** (C5) Overflow is fatal: retaining a slot whose count is 255 wraps the
    uint8 count to 0 and ends in [APP_ERROR_CHECK(NRF_ERROR_NO_MEM)]. *)
Theorem ref_count_inc_overflow_fatal (cfg : pool_config) (refs : list Z) (i k : Z) :
  pool_config_wf cfg -> refs_wf cfg refs ->
  0 <= i < MESH_PACKET_POOL_SIZE cfg -> 0 <= k < sizeof_mesh_packet_t ->
  refs !! Z.to_nat i = Some 255 ->
  mesh_packet_ref_count_inc cfg (packet_addr cfg i + k) refs = Fault (AppError NRF_ERROR_NO_MEM).
Proof. intros. by apply ref_count_inc_rollover. Qed.

(** (C6) The bound check is off by one: the guard is [index >
    MESH_PACKET_POOL_SIZE], so a pointer to the slot just past the pool
    (index [MESH_PACKET_POOL_SIZE]) passes it and both functions access
    [g_packet_refs[MESH_PACKET_POOL_SIZE]], outside the array. *)
Theorem ref_count_one_past_end_oob (cfg : pool_config) (refs : list Z) :
  pool_config_wf cfg -> refs_wf cfg refs ->
  let p := packet_addr cfg (MESH_PACKET_POOL_SIZE cfg) in
  mesh_packet_ref_count_inc cfg p refs = Fault (OobAccess RefTable (MESH_PACKET_POOL_SIZE cfg)) /\
  mesh_packet_ref_count_dec cfg p refs = Fault (OobAccess RefTable (MESH_PACKET_POOL_SIZE cfg)).
Proof.
  intros Hcfg [Hlen _] p.
  pose proof (packet_index_addr cfg (MESH_PACKET_POOL_SIZE cfg) 0 Hcfg) as Hix.
  rewrite Z.add_0_r in Hix. unfold mesh_packet_ref_count_inc, mesh_packet_ref_count_dec, p.
  unfold pool_config_wf in *. unfold_consts.
  rewrite Hix by lia. rewrite Z.gtb_ltb, Z.ltb_irrefl.
  unfold load_byte. rewrite (proj2 (zget_None _ _)) by lia. done.
Qed.

Lemma packet_index_foreign (cfg : pool_config) (p : Z) :
  pool_config_wf cfg -> 0 <= p < 4294967296 ->
  p < pool_base cfg \/ packet_addr cfg (MESH_PACKET_POOL_SIZE cfg + 1) <= p ->
  packet_index cfg p > MESH_PACKET_POOL_SIZE cfg.
Proof.
  unfold pool_config_wf, packet_index, packet_addr, u32. unfold_consts.
  intros (HN & Hb & Hend) Hp Hcase.
  rewrite (Z.mod_small p), (Z.mod_small (pool_base cfg)) by lia.
  destruct Hcase as [Hlt | Hge].
  - rewrite <- (Z.mod_add _ 1) by lia.
    rewrite Z.mod_small by lia.
    apply Z.lt_gt, Z.lt_le_trans with (MESH_PACKET_POOL_SIZE cfg + 1); [lia|].
    apply Z.div_le_lower_bound; lia.
  - rewrite Z.mod_small by lia.
    apply Z.lt_gt, Z.lt_le_trans with (MESH_PACKET_POOL_SIZE cfg + 1); [lia|].
    apply Z.div_le_lower_bound; lia.
Qed.

Lemma refs_wf_acquire (cfg : pool_config) (refs : list Z) :
  refs_wf cfg refs -> refs_wf cfg (snd (mesh_packet_acquire cfg refs)).
Proof.
  intros H. unfold mesh_packet_acquire.
  destruct (find_free 0 refs); cbn; [apply refs_wf_insert; [done|unfold is_byte; lia]|done].
Qed.

Lemma refs_wf_inc (cfg : pool_config) (p : Z) (refs refs' : list Z) (b : bool) :
  refs_wf cfg refs -> mesh_packet_ref_count_inc cfg p refs = Ret (b, refs') -> refs_wf cfg refs'.
Proof.
  intros H. unfold mesh_packet_ref_count_inc.
  destruct (_ >? _); [by intros [= _ <-]|].
  destruct (load_byte _ _ _) as [r|]; cbn; [|discriminate].
  destruct (store_byte _ _ _ _) as [l1|] eqn:E; cbn; [|discriminate].
  apply store_byte_Ret in E as ->.
  destruct (_ =? 0); [discriminate|]. intros [= _ <-]. auto with mesh.
Qed.

Lemma refs_wf_dec (cfg : pool_config) (p : Z) (refs refs' : list Z) (b : bool) :
  refs_wf cfg refs -> mesh_packet_ref_count_dec cfg p refs = Ret (b, refs') -> refs_wf cfg refs'.
Proof.
  intros H. unfold mesh_packet_ref_count_dec.
  destruct (_ >? _); [by intros [= _ <-]|].
  destruct (load_byte _ _ _) as [r|]; cbn; [|discriminate].
  destruct (_ =? 0); [by intros [= _ <-]|].
  destruct (store_byte _ _ _ _) as [l1|] eqn:E; cbn; [|discriminate].
  apply store_byte_Ret in E as ->. intros [= _ <-]. auto with mesh.
Qed.

(** (C7) Foreign references are rejected: a 32-bit pointer below the pool,
    or at or beyond the end of slot [MESH_PACKET_POOL_SIZE] (one slot past
    the pool, see C6), makes both reference-count functions return
    [false] without touching any count. *)
Theorem ref_count_foreign_rejected (cfg : pool_config) (refs : list Z) (p : Z) :
  pool_config_wf cfg -> 0 <= p < 4294967296 ->
  p < pool_base cfg \/ packet_addr cfg (MESH_PACKET_POOL_SIZE cfg + 1) <= p ->
  mesh_packet_ref_count_inc cfg p refs = Ret (false, refs) /\
  mesh_packet_ref_count_dec cfg p refs = Ret (false, refs).
Proof.
  intros Hcfg Hp Hcase.
  pose proof (packet_index_foreign cfg p Hcfg Hp Hcase) as Hgt.
  unfold mesh_packet_ref_count_inc, mesh_packet_ref_count_dec.
  assert (E : (packet_index cfg p >? MESH_PACKET_POOL_SIZE cfg) = true) by (apply Z.gtb_lt; lia).
  by rewrite E.
Qed.

(** ** The initial table *)
Lemma refs_wf_init (cfg : pool_config) :
  pool_config_wf cfg -> refs_wf cfg (mesh_packet_init cfg).
Proof.
  intros Hcfg. unfold pool_config_wf in Hcfg. split.
  - unfold mesh_packet_init. rewrite length_replicate. lia.
  - apply Forall_replicate. unfold is_byte. lia.
Qed.

(** ** Witnesses on the two-slot pool *)
Ltac solve_pool_wf :=
  unfold pool_config_wf, refs_wf, bytes_ok, is_byte in *; unfold_consts; cbn;
  repeat (split || constructor); lia.

Lemma ref_count_inc_dec_roundtrip_witness :
  exists refs1,
    mesh_packet_ref_count_inc pool2 (packet_addr pool2 1 + 7) [3; 0] = Ret (true, refs1) /\
    refs1 !! Z.to_nat 1 = Some (0 + 1) /\
    mesh_packet_ref_count_dec pool2 (packet_addr pool2 1 + 7) refs1 = Ret (true, [3; 0]).
Proof.
  apply (ref_count_inc_dec_roundtrip pool2 [3; 0] 1 7 0);
    [solve_pool_wf | solve_pool_wf | solve_pool_wf | unfold_consts; lia | reflexivity | lia].
Defined.

Lemma ref_count_dec_no_underflow_witness :
  mesh_packet_ref_count_dec pool2 (packet_addr pool2 0) [0; 2] = Ret (false, [0; 2]).
Proof.
  rewrite <- (Z.add_0_r (packet_addr pool2 0)).
  apply (ref_count_dec_no_underflow pool2 [0; 2] 0 0 0);
    [solve_pool_wf | solve_pool_wf | solve_pool_wf | unfold_consts; lia | reflexivity].
Defined.

Lemma ref_count_inc_overflow_fatal_witness :
  mesh_packet_ref_count_inc pool2 (packet_addr pool2 1 + 39) [1; 255]
  = Fault (AppError NRF_ERROR_NO_MEM).
Proof.
  apply (ref_count_inc_overflow_fatal pool2 [1; 255] 1 39);
    [solve_pool_wf | solve_pool_wf | solve_pool_wf | unfold_consts; lia | reflexivity].
Defined.

Lemma ref_count_one_past_end_oob_witness :
  mesh_packet_ref_count_inc pool2 (packet_addr pool2 2) [1; 1] = Fault (OobAccess RefTable 2) /\
  mesh_packet_ref_count_dec pool2 (packet_addr pool2 2) [1; 1] = Fault (OobAccess RefTable 2).
Proof. apply (ref_count_one_past_end_oob pool2 [1; 1]); solve_pool_wf. Defined.

Lemma ref_count_foreign_rejected_witness :
  mesh_packet_ref_count_inc pool2 1000 [1; 1] = Ret (false, [1; 1]) /\
  mesh_packet_ref_count_dec pool2 1000 [1; 1] = Ret (false, [1; 1]).
Proof.
  apply (ref_count_foreign_rejected pool2 [1; 1] 1000);
    [solve_pool_wf | lia | left; cbn; lia].
Defined.
