(* ===== verification/PoolSpec.v ===== *)
(** * PoolSpec: the pool's contract and its refinement

    Section 3 and 4.1 of the spec describe the pool abstractly: every slot
    has a number of owners; [acquire] hands out some slot with no owner and
    gives it one, or reports exhaustion when every slot is owned; [retain]
    adds an owner; [release] removes one and refuses a slot without owners;
    a reference that does not belong to the pool is rejected.  The abstract
    state is a [list nat] of owner counts, unbounded, and [spec_step] is
    the contract as a labelled transition relation, non-deterministic in
    the slot [acquire] chooses.

    The code (Pool) is related to it by the abstraction [pool_abs], which
    reads the uint8 counts as naturals, and by [call_op], which turns a
    pointer into the slot index the code computes.  The refinement theorems
    show that every call of the code that returns is a step the contract
    allows, and every sequence of calls a run of the contract.  Faults
    (the counter overflow, the one-past-the-end access) are not steps of
    the code: the contract has nothing to say about them. *)

From stdpp Require Import base list.
From Stdlib Require Import ZArith Lia.
From S2P Require Import Prelude MeshTypes Pool.

Open Scope Z_scope.
Open Scope mesh_scope.

(** ** The contract *)
Inductive pool_op := OpAcquire | OpRetain (i : nat) | OpRelease (i : nat).

Inductive pool_result := RAcquired (i : nat) | RExhausted | ROk | RRejected.

#[export] Instance pool_result_eq_dec : EqDecision pool_result.
Proof. solve_decision. Defined.

Inductive spec_step : list nat -> pool_op -> pool_result -> list nat -> Prop :=
| SAcquire o i :
    o !! i = Some 0%nat -> spec_step o OpAcquire (RAcquired i) (<[i := 1%nat]> o)
| SExhausted o :
    Forall (fun n => n <> 0%nat) o -> spec_step o OpAcquire RExhausted o
| SRetain o i n :
    o !! i = Some n -> spec_step o (OpRetain i) ROk (<[i := S n]> o)
| SRelease o i n :
    o !! i = Some (S n) -> spec_step o (OpRelease i) ROk (<[i := n]> o)
| SReleaseFree o i :
    o !! i = Some 0%nat -> spec_step o (OpRelease i) RRejected o
| SRetainForeign o i :
    (length o <= i)%nat -> spec_step o (OpRetain i) RRejected o
| SReleaseForeign o i :
    (length o <= i)%nat -> spec_step o (OpRelease i) RRejected o.

(** Runs of the contract: a sequence of operations and their results. *)
Inductive spec_run : list nat -> list pool_op -> list pool_result -> list nat -> Prop :=
| RunNil o : spec_run o [] [] o
| RunCons o op r o1 ops rs o2 :
    spec_step o op r o1 -> spec_run o1 ops rs o2 -> spec_run o (op :: ops) (r :: rs) o2.

(** The change in the number of owners that a step records. *)
Definition owner_delta (op : pool_op) (r : pool_result) : Z :=
  match op, r with
  | OpAcquire, RAcquired _ => 1
  | OpRetain _, ROk => 1
  | OpRelease _, ROk => -1
  | _, _ => 0
  end.

Fixpoint run_delta (ops : list pool_op) (rs : list pool_result) : Z :=
  match ops, rs with
  | op :: ops', r :: rs' => owner_delta op r + run_delta ops' rs'
  | _, _ => 0
  end.

(** ** The code as calls on the contract's interface *)
Inductive pool_call := CAcquire | CInc (p : Z) | CDec (p : Z).

Definition pool_abs (refs : list Z) : list nat := Z.to_nat <$> refs.

Definition call_op (cfg : pool_config) (c : pool_call) : pool_op :=
  match c with
  | CAcquire => OpAcquire
  | CInc p => OpRetain (Z.to_nat (packet_index cfg p))
  | CDec p => OpRelease (Z.to_nat (packet_index cfg p))
  end.

(** One call of the code, its C result read as a contract result: the
    address [acquire] stores in [*pp_packet] names the slot
    [packet_index] of it. *)
Definition pool_call_exec (cfg : pool_config) (c : pool_call) (refs : list Z)
  : exec (pool_result * list Z) :=
  match c with
  | CAcquire =>
      let (r, refs') := mesh_packet_acquire cfg refs in
      Ret (match r with
           | Some a => RAcquired (Z.to_nat (packet_index cfg a))
           | None => RExhausted
           end, refs')
  | CInc p =>
      let* '(b, refs') := mesh_packet_ref_count_inc cfg p refs in
      Ret (if b then ROk else RRejected, refs')
  | CDec p =>
      let* '(b, refs') := mesh_packet_ref_count_dec cfg p refs in
      Ret (if b then ROk else RRejected, refs')
  end.

(** A sequence of calls, stopping at the first fault. *)
Fixpoint pool_run (cfg : pool_config) (cs : list pool_call) (refs : list Z)
  : exec (list pool_result * list Z) :=
  match cs with
  | [] => Ret ([], refs)
  | c :: cs' =>
      let* '(r, refs1) := pool_call_exec cfg c refs in
      let* '(rs, refs2) := pool_run cfg cs' refs1 in
      Ret (r :: rs, refs2)
  end.

(** ** What a returning call did *)
Lemma packet_index_nonneg (cfg : pool_config) (p : Z) : 0 <= packet_index cfg p.
Proof.
  unfold packet_index, u32. unfold_consts.
  apply Z.div_pos; [apply Z.mod_pos_bound|]; lia.
Qed.

Lemma load_byte_Ret_lookup (r : region) (l : list Z) (i b : Z) :
  load_byte r l i = Ret b -> 0 <= i /\ l !! Z.to_nat i = Some b.
Proof.
  unfold load_byte, zget. destruct (Z.ltb_spec i 0); [discriminate|].
  destruct (l !! _); [|discriminate]. intros [= ->]. auto.
Qed.

Section CallInv.
Context (cfg : pool_config) (refs : list Z) (Hrefs : refs_wf cfg refs).

Lemma ref_count_inc_Ret (p : Z) (b : bool) (refs' : list Z) :
  mesh_packet_ref_count_inc cfg p refs = Ret (b, refs') ->
  (b = false /\ refs' = refs /\ MESH_PACKET_POOL_SIZE cfg < packet_index cfg p) \/
  (b = true /\ exists r, refs !! Z.to_nat (packet_index cfg p) = Some r /\ r < 255 /\
                         refs' = <[Z.to_nat (packet_index cfg p) := r + 1]> refs).
Proof.
  unfold mesh_packet_ref_count_inc.
  destruct (Z.gtb_spec (packet_index cfg p) (MESH_PACKET_POOL_SIZE cfg)).
  { intros [= <- <-]. by left. }
  destruct (load_byte _ _ _) as [r|] eqn:El; cbn; [|discriminate].
  apply load_byte_Ret_lookup in El as [_ Hr].
  destruct (store_byte _ _ _ _) as [l1|] eqn:Es; cbn; [|discriminate].
  apply store_byte_Ret in Es as ->.
  pose proof (Forall_lookup_1 _ _ _ _ (proj2 Hrefs) Hr) as Hb. unfold is_byte in Hb.
  unfold u8. destruct (Z.eqb_spec ((r + 1) mod 256) 0); [discriminate|].
  intros [= <- <-]. right. split; [done|]. exists r.
  assert (r < 255).
  { destruct (Z.eq_dec r 255) as [->|]; [done|lia]. }
  rewrite Z.mod_small by lia. auto.
Qed.

Lemma ref_count_dec_Ret (p : Z) (b : bool) (refs' : list Z) :
  mesh_packet_ref_count_dec cfg p refs = Ret (b, refs') ->
  (b = false /\ refs' = refs /\
     (MESH_PACKET_POOL_SIZE cfg < packet_index cfg p \/
      refs !! Z.to_nat (packet_index cfg p) = Some 0)) \/
  (b = true /\ exists r, refs !! Z.to_nat (packet_index cfg p) = Some r /\ 0 < r /\
                         refs' = <[Z.to_nat (packet_index cfg p) := r - 1]> refs).
Proof.
  unfold mesh_packet_ref_count_dec.
  destruct (Z.gtb_spec (packet_index cfg p) (MESH_PACKET_POOL_SIZE cfg)).
  { intros [= <- <-]. left. auto. }
  destruct (load_byte _ _ _) as [r|] eqn:El; cbn; [|discriminate].
  apply load_byte_Ret_lookup in El as [_ Hr].
  pose proof (Forall_lookup_1 _ _ _ _ (proj2 Hrefs) Hr) as Hb. unfold is_byte in Hb.
  destruct (Z.eqb_spec r 0) as [->|Hr0].
  { intros [= <- <-]. left. auto. }
  destruct (store_byte _ _ _ _) as [l1|] eqn:Es; cbn; [|discriminate].
  apply store_byte_Ret in Es as ->. intros [= <- <-]. right. split; [done|].
  exists r. rewrite u8_small by lia. repeat split; [done|lia].
Qed.
End CallInv.

(** ** The abstraction *)
Lemma pool_abs_lookup (refs : list Z) (i : nat) (r : Z) :
  refs !! i = Some r -> pool_abs refs !! i = Some (Z.to_nat r).
Proof. intros H. unfold pool_abs. by rewrite list_lookup_fmap, H. Qed.

Lemma pool_abs_insert (refs : list Z) (i : nat) (v : Z) :
  pool_abs (<[i := v]> refs) = <[i := Z.to_nat v]> (pool_abs refs).
Proof. unfold pool_abs. by rewrite list_fmap_insert. Qed.

Lemma pool_abs_length (refs : list Z) : length (pool_abs refs) = length refs.
Proof. unfold pool_abs. by rewrite length_fmap. Qed.

#[export] Hint Rewrite pool_abs_insert pool_abs_length : mesh_rw.

Lemma pool_abs_nonzero (refs : list Z) :
  bytes_ok refs -> Forall (fun r => r <> 0) refs -> Forall (fun n => n <> 0%nat) (pool_abs refs).
Proof.
  intros Hok Hnz. unfold pool_abs. apply Forall_fmap.
  apply Forall_impl with (fun r => is_byte r /\ r <> 0); [|unfold is_byte; cbn; lia].
  by apply Forall_and.
Qed.

Lemma refs_wf_length (cfg : pool_config) (refs : list Z) :
  refs_wf cfg refs -> Z.of_nat (length refs) = MESH_PACKET_POOL_SIZE cfg.
Proof. by intros []. Qed.

(** ** Refinement of one call *)

(** (C25) Refinement: on a well-formed count table, every call of
    [mesh_packet_acquire], [mesh_packet_ref_count_inc] or
    [mesh_packet_ref_count_dec] that returns is a step of the spec's pool
    contract [spec_step] between the abstracted tables: acquire returns a
    slot without owners and gives it one, or reports exhaustion only when
    every slot is owned; retain adds an owner; release removes one and
    refuses a slot without owners; and a refused reference leaves the
    counts alone. *)
Theorem pool_call_refines (cfg : pool_config) (refs refs' : list Z) (c : pool_call) (r : pool_result) :
  pool_config_wf cfg -> refs_wf cfg refs ->
  pool_call_exec cfg c refs = Ret (r, refs') ->
  spec_step (pool_abs refs) (call_op cfg c) r (pool_abs refs').
Proof.
  intros Hcfg Hrefs Hc. pose proof (refs_wf_length cfg refs Hrefs) as Hlen.
  destruct c as [|p|p]; cbn in Hc.
  - unfold mesh_packet_acquire in Hc. destruct (find_free 0 refs) as [i|] eqn:E.
    + apply find_free_Some in E as [Ei _]. injection Hc as <- <-.
      pose proof (lookup_lt_Some _ _ _ Ei) as Hi.
      rewrite <- (Z.add_0_r (packet_addr cfg (Z.of_nat i))).
      rewrite packet_index_addr by (done || unfold_consts; lia). rewrite Nat2Z.id.
      rewrite pool_abs_insert. apply SAcquire. by apply (pool_abs_lookup _ _ 0).
    + apply find_free_None in E. injection Hc as <- <-.
      apply SExhausted, pool_abs_nonzero; [apply Hrefs | done].
  - destruct (mesh_packet_ref_count_inc cfg p refs) as [[b l1]|] eqn:E; cbn in Hc; [|discriminate].
    injection Hc as <- <-.
    destruct (ref_count_inc_Ret cfg refs Hrefs p b l1 E) as [(-> & -> & Hgt) | (-> & x & Hx & Hlt & ->)].
    + apply SRetainForeign. rewrite pool_abs_length. lia.
    + pose proof (Forall_lookup_1 _ _ _ _ (proj2 Hrefs) Hx) as Hb. unfold is_byte in Hb.
      rewrite pool_abs_insert. replace (Z.to_nat (x + 1)) with (S (Z.to_nat x)) by lia.
      apply SRetain. by apply pool_abs_lookup.
  - destruct (mesh_packet_ref_count_dec cfg p refs) as [[b l1]|] eqn:E; cbn in Hc; [|discriminate].
    injection Hc as <- <-.
    destruct (ref_count_dec_Ret cfg refs Hrefs p b l1 E) as [(-> & -> & [Hgt | H0]) | (-> & x & Hx & Hlt & ->)].
    + apply SReleaseForeign. rewrite pool_abs_length. lia.
    + apply SReleaseFree. by apply (pool_abs_lookup _ _ 0).
    + rewrite pool_abs_insert. apply SRelease.
      replace (S (Z.to_nat (x - 1))) with (Z.to_nat x) by lia. by apply pool_abs_lookup.
Qed.

(** ** Refinement of runs *)
Lemma refs_wf_call (cfg : pool_config) (c : pool_call) (refs refs' : list Z) (r : pool_result) :
  refs_wf cfg refs -> pool_call_exec cfg c refs = Ret (r, refs') -> refs_wf cfg refs'.
Proof.
  intros H. destruct c as [|p|p]; cbn.
  - pose proof (refs_wf_acquire cfg refs H) as Ha.
    destruct (mesh_packet_acquire cfg refs) as [a l1]. by intros [= _ <-].
  - destruct (mesh_packet_ref_count_inc cfg p refs) as [[b l1]|] eqn:E; cbn; [|discriminate].
    intros [= _ <-]. eauto using refs_wf_inc.
  - destruct (mesh_packet_ref_count_dec cfg p refs) as [[b l1]|] eqn:E; cbn; [|discriminate].
    intros [= _ <-]. eauto using refs_wf_dec.
Qed.

Lemma pool_run_cons (cfg : pool_config) (c : pool_call) (cs : list pool_call) (refs : list Z)
    (rs : list pool_result) (refs' : list Z) :
  pool_run cfg (c :: cs) refs = Ret (rs, refs') ->
  exists r rs' refs1, rs = r :: rs' /\ pool_call_exec cfg c refs = Ret (r, refs1) /\
                      pool_run cfg cs refs1 = Ret (rs', refs').
Proof.
  cbn. destruct (pool_call_exec cfg c refs) as [[r refs1]|]; cbn; [|discriminate].
  destruct (pool_run cfg cs refs1) as [[rs' refs2]|] eqn:E; cbn; [|discriminate].
  intros [= <- <-]. by exists r, rs', refs1.
Qed.

(** (C26) Refinement of sequences: every sequence of pool calls that
    returns, from a well-formed table, is a run of the contract with the
    same results, so each property of the contract's runs holds of the
    code's. *)
Theorem pool_run_refines (cfg : pool_config) (cs : list pool_call) (refs refs' : list Z)
    (rs : list pool_result) :
  pool_config_wf cfg -> refs_wf cfg refs ->
  pool_run cfg cs refs = Ret (rs, refs') ->
  spec_run (pool_abs refs) (call_op cfg <$> cs) rs (pool_abs refs').
Proof.
  intros Hcfg. revert refs rs. induction cs as [|c cs IH]; intros refs rs Hrefs Hrun.
  - injection Hrun as <- <-. constructor.
  - apply pool_run_cons in Hrun as (r & rs' & refs1 & -> & Hc & Hrun).
    econstructor; [by eapply pool_call_refines|].
    apply IH; [eapply refs_wf_call|]; eauto.
Qed.

(** ** The number of owners *)
Lemma sum_list_insert (o : list nat) (i n m : nat) :
  o !! i = Some n -> Z.of_nat (sum_list (<[i := m]> o)) = Z.of_nat (sum_list o) - Z.of_nat n + Z.of_nat m.
Proof.
  revert i. induction o as [|x o IH]; intros [|i] H; try discriminate.
  - injection H as ->. cbn. lia.
  - change (<[S i := m]> (x :: o)) with (x :: <[i := m]> o).
    specialize (IH i H). cbn [sum_list_with id]. lia.
Qed.

Lemma spec_step_delta (o o' : list nat) (op : pool_op) (r : pool_result) :
  spec_step o op r o' -> Z.of_nat (sum_list o') = Z.of_nat (sum_list o) + owner_delta op r.
Proof.
  destruct 1; cbn; try lia; erewrite sum_list_insert by eassumption; lia.
Qed.

Lemma spec_run_delta (o o' : list nat) (ops : list pool_op) (rs : list pool_result) :
  spec_run o ops rs o' -> Z.of_nat (sum_list o') = Z.of_nat (sum_list o) + run_delta ops rs.
Proof.
  induction 1 as [|o op r o1 ops rs o2 Hs _ IH]; cbn; [lia|].
  apply spec_step_delta in Hs. lia.
Qed.

(** (C27) Conservation of owners: after any returning sequence of calls
    from [mesh_packet_init], the counts add up to the number of successful
    acquisitions and retains minus the number of successful releases; in
    particular no call loses or invents an owner. *)
Theorem pool_owners_conserved (cfg : pool_config) (cs : list pool_call) (refs' : list Z)
    (rs : list pool_result) :
  pool_config_wf cfg ->
  pool_run cfg cs (mesh_packet_init cfg) = Ret (rs, refs') ->
  Z.of_nat (sum_list (pool_abs refs')) = run_delta (call_op cfg <$> cs) rs.
Proof.
  intros Hcfg Hrun.
  apply pool_run_refines, spec_run_delta in Hrun; [|done|by apply refs_wf_init].
  rewrite Hrun. unfold mesh_packet_init, pool_abs.
  rewrite fmap_replicate, sum_list_replicate. lia.
Qed.

(** ** Releasing makes room *)
Lemma pool_run_app (cfg : pool_config) (cs1 cs2 : list pool_call) (refs : list Z) :
  pool_run cfg (cs1 ++ cs2) refs =
    let* '(rs1, refs1) := pool_run cfg cs1 refs in
    let* '(rs2, refs2) := pool_run cfg cs2 refs1 in
    Ret (rs1 ++ rs2, refs2).
Proof.
  revert refs. induction cs1 as [|c cs1 IH]; intros refs; cbn.
  - by destruct (pool_run cfg cs2 refs) as [[]|].
  - destruct (pool_call_exec cfg c refs) as [[r refs1]|]; cbn; [|done].
    rewrite IH. destruct (pool_run cfg cs1 refs1) as [[rs1 refs2]|]; cbn; [|done].
    by destruct (pool_run cfg cs2 refs2) as [[]|].
Qed.

Lemma release_repeat (cfg : pool_config) (refs : list Z) (i r : Z) (k : nat) :
  pool_config_wf cfg -> refs_wf cfg refs -> 0 <= i < MESH_PACKET_POOL_SIZE cfg ->
  refs !! Z.to_nat i = Some r -> (Z.of_nat k <= r) ->
  pool_run cfg (replicate k (CDec (packet_addr cfg i))) refs
  = Ret (replicate k ROk, <[Z.to_nat i := r - Z.of_nat k]> refs).
Proof.
  intros Hcfg. revert refs r. induction k as [|k IH]; intros refs r Hrefs Hi Hr Hk.
  - cbn. by rewrite Z.sub_0_r, list_insert_id.
  - cbn [replicate pool_run pool_call_exec].
    rewrite <- (Z.add_0_r (packet_addr cfg i)).
    rewrite (ref_count_dec_slot cfg Hcfg refs Hrefs i 0 Hi ltac:(unfold_consts; lia) r Hr).
    destruct (Z.eqb_spec r 0); [lia|]. cbn.
    pose proof (Forall_lookup_1 _ _ _ _ (proj2 Hrefs) Hr) as Hb. unfold is_byte in Hb.
    rewrite Z.add_0_r, (IH _ (r - 1)); cbn.
    + rewrite list_insert_insert_eq. do 3 f_equal. lia.
    + apply refs_wf_insert; [done|unfold is_byte; lia].
    + done.
    + apply list_lookup_insert_eq. apply lookup_lt_Some in Hr. lia.
    + lia.
Qed.

Lemma acquire_finds_before (cfg : pool_config) (refs : list Z) (i : nat) :
  refs !! i = Some 0 ->
  exists j, mesh_packet_acquire cfg refs = (Some (packet_addr cfg (Z.of_nat j)), <[j := 1]> refs) /\
            (j <= i)%nat.
Proof.
  intros Hi. unfold mesh_packet_acquire. destruct (find_free 0 refs) as [j|] eqn:E.
  - apply find_free_Some in E as [Ej Hbefore]. exists j. split; [done|].
    destruct (Nat.le_gt_cases j i) as [|Hlt]; [done|]. by destruct (Hbefore i 0 Hlt Hi).
  - apply find_free_None in E. by destruct (Forall_lookup_1 _ _ _ _ E Hi).
Qed.

(** (C28) Liveness of acquisition: from any well-formed table, once the
    owners of a slot have all released it, the next acquisition succeeds,
    and it returns that slot or one before it.  Releasing never faults on
    the way. *)
Theorem release_all_then_acquire (cfg : pool_config) (refs : list Z) (i r : Z) :
  pool_config_wf cfg -> refs_wf cfg refs -> 0 <= i < MESH_PACKET_POOL_SIZE cfg ->
  refs !! Z.to_nat i = Some r ->
  exists j refs',
    pool_run cfg (replicate (Z.to_nat r) (CDec (packet_addr cfg i)) ++ [CAcquire]) refs
    = Ret (replicate (Z.to_nat r) ROk ++ [RAcquired j], refs') /\ (j <= Z.to_nat i)%nat.
Proof.
  intros Hcfg Hrefs Hi Hr.
  pose proof (Forall_lookup_1 _ _ _ _ (proj2 Hrefs) Hr) as Hb. unfold is_byte in Hb.
  rewrite pool_run_app, (release_repeat cfg refs i r) by (done || lia). cbn.
  replace (r - Z.of_nat (Z.to_nat r)) with 0 by lia.
  destruct (acquire_finds_before cfg (<[Z.to_nat i := 0]> refs) (Z.to_nat i))
    as (j & -> & Hj).
  { apply list_lookup_insert_eq. apply lookup_lt_Some in Hr. lia. }
  cbn. exists j, (<[j := 1]> (<[Z.to_nat i := 0]> refs)). split; [|done].
  rewrite <- (Z.add_0_r (packet_addr cfg (Z.of_nat j))).
  rewrite packet_index_addr by (done || unfold_consts; destruct Hrefs; lia). by rewrite Nat2Z.id.
Qed.

(** ** Witnesses on the two-slot pool *)
Definition pool2_calls : list pool_call :=
  [CAcquire; CAcquire; CAcquire; CDec (packet_addr pool2 0); CAcquire; CInc (packet_addr pool2 1 + 5)].

Lemma pool_call_refines_witness :
  spec_step (pool_abs [1; 0]) (call_op pool2 CAcquire) (RAcquired 1) (pool_abs [1; 1]).
Proof.
  apply (pool_call_refines pool2 [1; 0] [1; 1] CAcquire (RAcquired 1));
    [solve_pool_wf | solve_pool_wf | vm_compute; reflexivity].
Defined.

Lemma pool_run_refines_witness :
  spec_run (pool_abs (mesh_packet_init pool2)) (call_op pool2 <$> pool2_calls)
           [RAcquired 0; RAcquired 1; RExhausted; ROk; RAcquired 0; ROk] (pool_abs [1; 2]).
Proof.
  apply (pool_run_refines pool2 pool2_calls (mesh_packet_init pool2) [1; 2]);
    [solve_pool_wf | unfold mesh_packet_init; solve_pool_wf | vm_compute; reflexivity].
Defined.

Lemma pool_owners_conserved_witness :
  Z.of_nat (sum_list (pool_abs [1; 2])) =
  run_delta (call_op pool2 <$> pool2_calls) [RAcquired 0; RAcquired 1; RExhausted; ROk; RAcquired 0; ROk].
Proof.
  apply (pool_owners_conserved pool2 pool2_calls [1; 2]); [solve_pool_wf | vm_compute; reflexivity].
Defined.

Lemma release_all_then_acquire_witness :
  exists j refs',
    pool_run pool2 (replicate (Z.to_nat 2) (CDec (packet_addr pool2 1)) ++ [CAcquire]) [3; 2]
    = Ret (replicate (Z.to_nat 2) ROk ++ [RAcquired j], refs') /\ (j <= Z.to_nat 1)%nat.
Proof.
  apply (release_all_then_acquire pool2 [3; 2] 1 2);
    [solve_pool_wf | solve_pool_wf | solve_pool_wf | reflexivity].
Defined.
