(* ===== verification/Concurrency.v ===== *)
(** * Concurrency: the pool calls as sequences of memory accesses

    The pool functions of mesh_packet.c take no lock: each one is a
    read-modify-write of [g_packet_refs] spread over several accesses, and
    the spec requires that they be mutually exclusive when called from
    more than one context (main loop, SoftDevice events, the timeslot
    handler).  This file splits each call into the atomic accesses of its
    source lines ([pc], [thread_step]), runs several calls under an
    explicit schedule ([run_sched]), and shows:
    - a serial schedule computes exactly what the atomic functions of Pool
      compute (the split is faithful);
    - an interleaving of two [mesh_packet_ref_count_inc] on one slot loses
      an increment, and an interleaving of two [mesh_packet_acquire] hands
      the same slot to both callers.

    The scan of [mesh_packet_acquire] is one access here: each of its reads
    is of a different count, and the races below need only that the store
    comes after the scan. *)

From stdpp Require Import base list.
From Stdlib Require Import ZArith Lia.
From S2P Require Import Prelude MeshTypes Pool PoolSpec.

Open Scope Z_scope.
Open Scope mesh_scope.

(** The value a call returns to its caller: the [*pp_packet] of
    [mesh_packet_acquire] ([None] for [false]), or the [bool] of the
    reference-count functions. *)
Inductive ret := RetAddr (a : option Z) | RetBool (b : bool).

(** The program counter of one call in progress. *)
Inductive pc :=
| AcqScan                      (* the loop of mesh_packet_acquire *)
| AcqStore (i : nat)           (* g_packet_refs[i] = 1 *)
| IncLoad (p : Z)              (* index, guard, read of ++g_packet_refs[index] *)
| IncStore (index r : Z)       (* write of ++g_packet_refs[index], rollover check *)
| DecLoad (p : Z)              (* index, guard, g_packet_refs[index] == 0 *)
| DecRmw (index : Z)           (* read of g_packet_refs[index]-- *)
| DecStore (index r : Z)       (* write of g_packet_refs[index]-- *)
| Returned (res : ret).

(** One atomic access of a call.  A returned call does not move. *)
Definition thread_step (cfg : pool_config) (refs : list Z) (t : pc) : exec (list Z * pc) :=
  match t with
  | AcqScan =>
      match find_free 0 refs with
      | Some i => Ret (refs, AcqStore i)
      | None => Ret (refs, Returned (RetAddr None))
      end
  | AcqStore i => Ret (<[i := 1]> refs, Returned (RetAddr (Some (packet_addr cfg (Z.of_nat i)))))
  | IncLoad p =>
      let index := packet_index cfg p in
      if index >? MESH_PACKET_POOL_SIZE cfg then Ret (refs, Returned (RetBool false))
      else let* r := load_byte RefTable refs index in Ret (refs, IncStore index r)
  | IncStore index r =>
      let* refs' := store_byte RefTable refs index (u8 (r + 1)) in
      if u8 (r + 1) =? 0 then Fault (AppError NRF_ERROR_NO_MEM)
      else Ret (refs', Returned (RetBool true))
  | DecLoad p =>
      let index := packet_index cfg p in
      if index >? MESH_PACKET_POOL_SIZE cfg then Ret (refs, Returned (RetBool false))
      else
        let* r := load_byte RefTable refs index in
        if r =? 0 then Ret (refs, Returned (RetBool false)) else Ret (refs, DecRmw index)
  | DecRmw index => let* r := load_byte RefTable refs index in Ret (refs, DecStore index r)
  | DecStore index r =>
      let* refs' := store_byte RefTable refs index (u8 (r - 1)) in
      Ret (refs', Returned (RetBool true))
  | Returned _ => Ret (refs, t)
  end.

(** [fuel] accesses of one call in a row. *)
Fixpoint thread_finish (cfg : pool_config) (fuel : nat) (refs : list Z) (t : pc)
  : exec (list Z * pc) :=
  match fuel with
  | O => Ret (refs, t)
  | S fuel' => let* '(refs', t') := thread_step cfg refs t in thread_finish cfg fuel' refs' t'
  end.

(** The entry point of each call. *)
Definition thread_call (c : pool_call) : pc :=
  match c with CAcquire => AcqScan | CInc p => IncLoad p | CDec p => DecLoad p end.

(** A call of the atomic functions of Pool, with its C return value. *)
Definition call_atomic (cfg : pool_config) (c : pool_call) (refs : list Z) : exec (ret * list Z) :=
  match c with
  | CAcquire => let (a, refs') := mesh_packet_acquire cfg refs in Ret (RetAddr a, refs')
  | CInc p => let* '(b, refs') := mesh_packet_ref_count_inc cfg p refs in Ret (RetBool b, refs')
  | CDec p => let* '(b, refs') := mesh_packet_ref_count_dec cfg p refs in Ret (RetBool b, refs')
  end.

Fixpoint calls_atomic (cfg : pool_config) (cs : list pool_call) (refs : list Z)
  : exec (list ret * list Z) :=
  match cs with
  | [] => Ret ([], refs)
  | c :: cs' =>
      let* '(r, refs1) := call_atomic cfg c refs in
      let* '(rs, refs2) := calls_atomic cfg cs' refs1 in
      Ret (r :: rs, refs2)
  end.

(** [mesh_packet_on_ts_begin]: the body is empty. *)
Definition mesh_packet_on_ts_begin (refs : list Z) : list Z := refs.

(** ** Schedules *)

(** The shared counts and the calls in progress, one per context. *)
Record conc_state := mk_conc { c_refs : list Z; c_threads : list pc }.

(** An event of a schedule: context [k] makes one access, or the
    timeslot begins and [mesh_packet_on_ts_begin] runs. *)
Inductive event := Sched (k : nat) | TsBegin.

Definition conc_event (cfg : pool_config) (s : conc_state) (e : event) : exec conc_state :=
  match e with
  | TsBegin => Ret (mk_conc (mesh_packet_on_ts_begin (c_refs s)) (c_threads s))
  | Sched k =>
      match c_threads s !! k with
      | Some t =>
          let* '(refs', t') := thread_step cfg (c_refs s) t in
          Ret (mk_conc refs' (<[k := t']> (c_threads s)))
      | None => Ret s
      end
  end.

Fixpoint run_sched (cfg : pool_config) (s : conc_state) (es : list event) : exec conc_state :=
  match es with
  | [] => Ret s
  | e :: es' => let* s1 := conc_event cfg s e in run_sched cfg s1 es'
  end.

(** The serial schedule: contexts [k], [k+1], ... each run three accesses
    (the longest call, [mesh_packet_ref_count_dec], has three) before the
    next starts. *)
Definition serial_sched (n k : nat) : list event :=
  concat (map (fun j => replicate 3 (Sched j)) (seq k n)).

(** ** Lemmas: schedules *)
Lemma run_sched_app (cfg : pool_config) (s : conc_state) (es1 es2 : list event) :
  run_sched cfg s (es1 ++ es2) = let* s1 := run_sched cfg s es1 in run_sched cfg s1 es2.
Proof.
  revert s. induction es1 as [|e es1 IH]; intros s; cbn; [done|].
  destruct (conc_event cfg s e); cbn; auto.
Qed.

(** Accesses of context [k] alone are accesses of its call. *)
Lemma run_sched_thread (cfg : pool_config) (refs : list Z) (fin rest : list pc) (t : pc) (n : nat) :
  run_sched cfg (mk_conc refs (fin ++ t :: rest)) (replicate n (Sched (length fin)))
  = let* '(refs', t') := thread_finish cfg n refs t in Ret (mk_conc refs' (fin ++ t' :: rest)).
Proof.
  revert refs t. induction n as [|n IH]; intros refs t; [done|].
  cbn [replicate run_sched conc_event c_threads c_refs thread_finish].
  rewrite lookup_app_r, Nat.sub_diag by lia. cbn [lookup list_lookup].
  destruct (thread_step cfg refs t) as [[refs1 t1]|]; cbn [exec_bind]; [|done].
  rewrite insert_app_r_alt, Nat.sub_diag by lia. apply IH.
Qed.

(** The split of a call into its accesses is faithful: run alone, each
    call returns what its atomic function returns. *)
Lemma thread_call_finish (cfg : pool_config) (c : pool_call) (refs : list Z) :
  thread_finish cfg 3 refs (thread_call c)
  = let* '(r, refs') := call_atomic cfg c refs in Ret (refs', Returned r).
Proof.
  destruct c as [|p|p]; cbn [thread_call call_atomic thread_finish thread_step].
  - unfold mesh_packet_acquire. by destruct (find_free 0 refs).
  - unfold mesh_packet_ref_count_inc. destruct (_ >? _); [done|].
    destruct (load_byte _ _ _) as [r|]; cbn; [|done].
    destruct (store_byte _ _ _ _); cbn; [|done]. by destruct (_ =? 0).
  - unfold mesh_packet_ref_count_dec. destruct (_ >? _); [done|].
    destruct (load_byte _ _ _) as [r|] eqn:El; cbn; [|done].
    destruct (r =? 0); [done|]. cbn. rewrite El. cbn.
    by destruct (store_byte _ _ _ _).
Qed.

Lemma serial_sched_gen (cfg : pool_config) (cs : list pool_call) (fin : list pc) (refs : list Z) :
  run_sched cfg (mk_conc refs (fin ++ map thread_call cs)) (serial_sched (length cs) (length fin))
  = let* '(rs, refs') := calls_atomic cfg cs refs in Ret (mk_conc refs' (fin ++ map Returned rs)).
Proof.
  revert fin refs. induction cs as [|c cs IH]; intros fin refs; [done|].
  unfold serial_sched. cbn [length seq map concat].
  fold (serial_sched (length cs) (S (length fin))).
  rewrite run_sched_app, run_sched_thread, thread_call_finish.
  cbn [calls_atomic]. destruct (call_atomic cfg c refs) as [[r refs1]|]; cbn [exec_bind]; [|done].
  replace (S (length fin)) with (length (fin ++ [Returned r])) by (rewrite length_app; cbn; lia).
  rewrite cons_middle, app_assoc, IH.
  destruct (calls_atomic cfg cs refs1) as [[rs refs2]|]; cbn; [|done].
  by rewrite <- app_assoc.
Qed.

(** ** Lemmas: accesses on a slot of the pool *)
Section SlotAccess.
Context (cfg : pool_config) (Hcfg : pool_config_wf cfg).
Context (i : Z) (Hi : 0 <= i < MESH_PACKET_POOL_SIZE cfg).

Lemma inc_load_slot (refs : list Z) (k r : Z) :
  refs_wf cfg refs -> 0 <= k < sizeof_mesh_packet_t -> refs !! Z.to_nat i = Some r ->
  thread_step cfg refs (IncLoad (packet_addr cfg i + k)) = Ret (refs, IncStore i r).
Proof.
  intros Hrefs Hk Hr. cbn [thread_step]. rewrite (slot_guard cfg Hcfg i k Hi Hk).
  rewrite packet_index_addr by (done || lia).
  destruct (load_refs_slot cfg refs i Hrefs Hi) as (r' & -> & Hr' & _).
  by rewrite Hr in Hr'; injection Hr' as ->.
Qed.

Lemma inc_store_slot (refs : list Z) (r : Z) :
  refs_wf cfg refs -> 0 <= r < 255 ->
  thread_step cfg refs (IncStore i r) = Ret (<[Z.to_nat i := r + 1]> refs, Returned (RetBool true)).
Proof.
  intros [Hlen _] Hr. cbn [thread_step].
  rewrite store_byte_ok by lia. cbn [exec_bind].
  rewrite u8_small by lia. by destruct (Z.eqb_spec (r + 1) 0); [lia|].
Qed.
End SlotAccess.

Lemma packet_addr_inj (cfg : pool_config) (i j : nat) :
  packet_addr cfg (Z.of_nat i) = packet_addr cfg (Z.of_nat j) -> i = j.
Proof. unfold packet_addr. unfold_consts. lia. Qed.

(** A serial second acquisition never returns the slot of the first. *)
Lemma acquire_after_acquire (cfg : pool_config) (refs : list Z) (i : nat) :
  find_free 0 refs = Some i ->
  fst (mesh_packet_acquire cfg (<[i := 1]> refs)) <> Some (packet_addr cfg (Z.of_nat i)).
Proof.
  intros E. apply find_free_Some in E as [Ei _].
  unfold mesh_packet_acquire. destruct (find_free 0 (<[i := 1]> refs)) as [j|] eqn:E2; cbn; [|done].
  apply find_free_Some in E2 as [Ej _]. intros [= Hij%packet_addr_inj]. subst j.
  rewrite list_lookup_insert_eq in Ej; [done|]. by apply lookup_lt_Some in Ei.
Qed.

(** ** Serial schedules and races *)

(** The split of the pool calls into their memory
    accesses agrees with the functions of Pool.  Under the serial
    schedule, in which each context
    makes all its accesses before the next one starts, any list of calls
    of [mesh_packet_acquire], [mesh_packet_ref_count_inc] and
    [mesh_packet_ref_count_dec] ends with exactly the counts, the return
    values and the fault of the atomic functions of Pool run in order. *)
Lemma serial_schedule_atomic (cfg : pool_config) (cs : list pool_call) (refs : list Z) :
  run_sched cfg (mk_conc refs (map thread_call cs)) (serial_sched (length cs) 0)
  = let* '(rs, refs') := calls_atomic cfg cs refs in Ret (mk_conc refs' (map Returned rs)).
Proof. exact (serial_sched_gen cfg cs [] refs). Qed.

(** The schedule in which two contexts alternate access by access. *)
Definition alternate2 : list event := [Sched 0; Sched 1; Sched 0; Sched 1].

(** Two scans before either store: both acquisitions find the same slot. *)
Lemma alternate_acquires (cfg : pool_config) (refs : list Z) (i : nat) :
  find_free 0 refs = Some i ->
  run_sched cfg (mk_conc refs [AcqScan; AcqScan]) alternate2
  = Ret (mk_conc (<[i := 1]> refs) [Returned (RetAddr (Some (packet_addr cfg (Z.of_nat i))));
                                    Returned (RetAddr (Some (packet_addr cfg (Z.of_nat i))))]).
Proof.
  intros E. unfold alternate2.
  cbn [run_sched conc_event c_threads c_refs lookup list_lookup thread_step].
  rewrite E. cbn [exec_bind c_threads c_refs insert list_insert run_sched conc_event lookup list_lookup thread_step].
  rewrite E. cbn. by rewrite list_insert_insert_eq.
Qed.

(** (C30) Lost update: two [mesh_packet_ref_count_inc] on the same slot
    (through any two pointers into it) add 2 to its count when they run one
    after the other, but when the second context reads the count between
    the first one's read and write of [++g_packet_refs[index]], both return
    [true] and the count is only one higher: one reference is not counted,
    and a later release frees the packet while it is still in use. *)
Theorem inc_inc_lost_update (cfg : pool_config) (refs : list Z) (i k1 k2 r : Z) :
  pool_config_wf cfg -> refs_wf cfg refs ->
  0 <= i < MESH_PACKET_POOL_SIZE cfg ->
  0 <= k1 < sizeof_mesh_packet_t -> 0 <= k2 < sizeof_mesh_packet_t ->
  refs !! Z.to_nat i = Some r -> r < 254 ->
  let cs := [CInc (packet_addr cfg i + k1); CInc (packet_addr cfg i + k2)] in
  calls_atomic cfg cs refs = Ret ([RetBool true; RetBool true], <[Z.to_nat i := r + 2]> refs) /\
  run_sched cfg (mk_conc refs (map thread_call cs)) alternate2
  = Ret (mk_conc (<[Z.to_nat i := r + 1]> refs) [Returned (RetBool true); Returned (RetBool true)]).
Proof.
  intros Hcfg Hrefs Hi Hk1 Hk2 Hr Hlt cs.
  assert (Hb : is_byte r) by (destruct Hrefs as [_ Hok]; exact (Forall_lookup_1 _ _ _ _ Hok Hr)).
  unfold is_byte in Hb.
  assert (Hrefs1 : refs_wf cfg (<[Z.to_nat i := r + 1]> refs)) by (apply refs_wf_insert; [done|unfold is_byte; lia]).
  assert (Hlen : (Z.to_nat i < length refs)%nat) by (destruct Hrefs; lia).
  split.
  - cbn [cs calls_atomic call_atomic].
    rewrite (ref_count_inc_slot cfg Hcfg refs Hrefs i k1 Hi Hk1 r Hr) by lia. cbn [exec_bind].
    rewrite (ref_count_inc_slot cfg Hcfg _ Hrefs1 i k2 Hi Hk2 (r + 1)) by (rewrite ?list_lookup_insert_eq; (done || lia)).
    cbn. rewrite list_insert_insert_eq. do 3 f_equal. lia.
  - unfold alternate2. cbn [cs map thread_call run_sched conc_event c_threads c_refs lookup list_lookup].
    rewrite (inc_load_slot cfg Hcfg i Hi refs k1 r) by done. cbn [exec_bind c_threads c_refs insert list_insert run_sched conc_event lookup list_lookup].
    rewrite (inc_load_slot cfg Hcfg i Hi refs k2 r) by done. cbn [exec_bind c_threads c_refs insert list_insert run_sched conc_event lookup list_lookup].
    rewrite (inc_store_slot cfg i Hi refs r) by (done || lia). cbn [exec_bind c_threads c_refs insert list_insert run_sched conc_event lookup list_lookup].
    rewrite (inc_store_slot cfg i Hi _ r) by (done || lia). cbn [exec_bind c_threads c_refs insert list_insert].
    by rewrite list_insert_insert_eq.
Qed.

(** (C31) Double ownership: when [mesh_packet_acquire] would hand out slot
    [a], two calls one after the other hand out two different slots (or the
    second fails), but when the second context scans the counts before the
    first one stores [g_packet_refs[i] = 1], both return the same packet
    [a] and its count is 1: two owners of one packet, the first release
    frees it for the other. *)
Theorem acquire_acquire_double_ownership (cfg : pool_config) (refs refs1 : list Z) (a : Z) :
  mesh_packet_acquire cfg refs = (Some a, refs1) ->
  (exists r2 refs2, calls_atomic cfg [CAcquire; CAcquire] refs = Ret ([RetAddr (Some a); r2], refs2) /\
                    r2 <> RetAddr (Some a)) /\
  run_sched cfg (mk_conc refs (map thread_call [CAcquire; CAcquire])) alternate2
  = Ret (mk_conc refs1 [Returned (RetAddr (Some a)); Returned (RetAddr (Some a))]).
Proof.
  intros H. pose proof H as Hacq. unfold mesh_packet_acquire in H.
  destruct (find_free 0 refs) as [i|] eqn:E; [|discriminate]. injection H as <- <-.
  split.
  - cbn [calls_atomic call_atomic]. rewrite Hacq. cbn [exec_bind].
    pose proof (acquire_after_acquire cfg refs i E) as Hne.
    destruct (mesh_packet_acquire cfg (<[i:=1]> refs)) as [a2 refs2]. cbn in Hne |- *.
    eexists _, _. split; [reflexivity|]. by intros [= ->].
  - exact (alternate_acquires cfg refs i E).
Qed.

(** ** Witnesses on the two-slot pool *)
Lemma inc_inc_lost_update_witness :
  calls_atomic pool2 [CInc (packet_addr pool2 1 + 0); CInc (packet_addr pool2 1 + 39)] [1; 3]
    = Ret ([RetBool true; RetBool true], <[Z.to_nat 1 := 3 + 2]> [1; 3]) /\
  run_sched pool2 (mk_conc [1; 3] (map thread_call [CInc (packet_addr pool2 1 + 0); CInc (packet_addr pool2 1 + 39)]))
    alternate2
  = Ret (mk_conc (<[Z.to_nat 1 := 3 + 1]> [1; 3]) [Returned (RetBool true); Returned (RetBool true)]).
Proof.
  apply (inc_inc_lost_update pool2 [1; 3] 1 0 39 3);
    [solve_pool_wf | solve_pool_wf | solve_pool_wf | unfold_consts; lia | unfold_consts; lia
    | reflexivity | lia].
Defined.

Lemma acquire_acquire_double_ownership_witness :
  (exists r2 refs2, calls_atomic pool2 [CAcquire; CAcquire] (mesh_packet_init pool2)
                      = Ret ([RetAddr (Some (packet_addr pool2 0)); r2], refs2) /\
                    r2 <> RetAddr (Some (packet_addr pool2 0))) /\
  run_sched pool2 (mk_conc (mesh_packet_init pool2) (map thread_call [CAcquire; CAcquire])) alternate2
  = Ret (mk_conc [1; 0] [Returned (RetAddr (Some (packet_addr pool2 0)));
                         Returned (RetAddr (Some (packet_addr pool2 0)))]).
Proof. apply (acquire_acquire_double_ownership pool2). reflexivity. Defined.
