(* ===== verification/AddrStamp.v ===== *)
(** * AddrStamp: [mesh_packet_set_local_addr]

    The local identity comes from outside the packet layer: from the
    SoftDevice ([sd_ble_gap_address_get], compiled when SOFTDEVICE_PRESENT
    is defined) or from the FICR registers.  The provider is the interface
    [IdentityProvider]; the stamping function is proved against it.  The
    FICR variant reads the two 32-bit [DEVICEADDR] registers byte by byte
    ([memcpy] on a little-endian core) and the [DEVICEADDRTYPE] register
    (mesh_packet.c lines 106-123). *)

From stdpp Require Import base list.
From Stdlib Require Import ZArith Lia.
From S2P Require Import Prelude MeshTypes.

Open Scope Z_scope.
Open Scope mesh_scope.

(** [ble_gap_addr_t]: an address type and the 6 address bytes. *)
Record ble_gap_addr := mk_gap_addr { gap_addr_type : Z; gap_addr : list Z }.

(** The identity provider: the result code of [sd_ble_gap_address_get]
    and the address it wrote. *)
Class IdentityProvider := { sd_ble_gap_address_get : Z * ble_gap_addr }.

(** The stores of lines 115-116: the address type into the header's 1-bit
    field, then [BLE_GAP_ADDR_LEN] bytes of the address. *)
Definition stamp_addr (p : mesh_packet) (a : ble_gap_addr) : mesh_packet :=
  set_addr (set_hdr_addr_type p (gap_addr_type a))
           (take (Z.to_nat BLE_GAP_ADDR_LEN) (gap_addr a)).

(** [mesh_packet_set_local_addr] with SOFTDEVICE_PRESENT. *)
Definition mesh_packet_set_local_addr `{IdentityProvider} (p : mesh_packet)
  : Z * mesh_packet :=
  let (error_code, my_addr) := sd_ble_gap_address_get in
  if negb (error_code =? NRF_SUCCESS) then (error_code, p)
  else (NRF_SUCCESS, stamp_addr p my_addr).

(** The [n] bytes of a register value [w] in memory order on the
    little-endian Cortex-M0: byte [k] is [(w >> 8k) & 0xFF]. *)
Fixpoint le_split (n : nat) (w : Z) : list Z :=
  match n with
  | O => []
  | S n' => Z.land w 255 :: le_split n' (Z.shiftr w 8)
  end.

(** A byte string read as a little-endian number: how a BLE address is
    sent and compared. *)
Fixpoint le_combine (l : list Z) : Z :=
  match l with
  | [] => 0
  | b :: l' => b + 256 * le_combine l'
  end.

(** [mesh_packet_set_local_addr] without a SoftDevice: [memcpy] of
    [BLE_GAP_ADDR_LEN] bytes from [&NRF_FICR->DEVICEADDR[0]] (the
    registers [DEVICEADDR[0]] and [DEVICEADDR[1]] in memory order), then the
    [DEVICEADDRTYPE] register into the 1-bit header field. *)
Definition mesh_packet_set_local_addr_ficr (DEVICEADDR0 DEVICEADDR1 DEVICEADDRTYPE : Z)
  (p : mesh_packet) : Z * mesh_packet :=
  let p1 := set_addr p (take (Z.to_nat BLE_GAP_ADDR_LEN)
                             (le_split 4 DEVICEADDR0 ++ le_split 4 DEVICEADDR1)) in
  (NRF_SUCCESS, set_hdr_addr_type p1 DEVICEADDRTYPE).

(** A provider that answers with a well-formed address. *)
Definition identity_ok `{IdentityProvider} : Prop :=
  fst sd_ble_gap_address_get = NRF_SUCCESS /\
  Z.of_nat (length (gap_addr (snd sd_ble_gap_address_get))) = BLE_GAP_ADDR_LEN /\
  bytes_ok (gap_addr (snd sd_ble_gap_address_get)).

Section Stamp.
Context `{IP : IdentityProvider}.

Lemma set_local_addr_payload (p : mesh_packet) :
  pkt_payload (snd (mesh_packet_set_local_addr p)) = pkt_payload p /\
  hdr_length (snd (mesh_packet_set_local_addr p)) = hdr_length p /\
  hdr_type (snd (mesh_packet_set_local_addr p)) = hdr_type p.
Proof.
  unfold mesh_packet_set_local_addr. destruct sd_ble_gap_address_get as [e a].
  destruct (negb _); cbn; auto.
Qed.

Lemma set_local_addr_wf (p : mesh_packet) :
  packet_wf p -> identity_ok -> packet_wf (snd (mesh_packet_set_local_addr p)).
Proof.
  unfold identity_ok, mesh_packet_set_local_addr. destruct sd_ble_gap_address_get as [e a].
  cbn. intros (H1 & H2 & H3 & H4 & H5 & H6 & H7) (-> & Hlen & Hok). cbn.
  unfold packet_wf, stamp_addr, BLE_GAP_ADDR_LEN in *; cbn.
  rewrite take_ge by lia.
  pose proof (land_ones_range (gap_addr_type a) 1 ltac:(lia)) as Hbit.
  change (Z.ones 1) with 1 in Hbit. cbn in Hbit.
  unfold is_byte in *. repeat split; auto; lia.
Qed.
Lemma set_local_addr_addr (p : mesh_packet) :
  identity_ok -> pkt_addr (snd (mesh_packet_set_local_addr p)) = gap_addr (snd sd_ble_gap_address_get).
Proof.
  unfold identity_ok, mesh_packet_set_local_addr. destruct sd_ble_gap_address_get as [e a].
  cbn. intros (-> & Hlen & _). cbn. unfold stamp_addr. cbn.
  rewrite take_ge; [done|]. unfold BLE_GAP_ADDR_LEN in *. lia.
Qed.
End Stamp.

#[export] Hint Resolve set_local_addr_wf : mesh.

(** ** Lemmas: register bytes *)
Lemma le_split_length (n : nat) (w : Z) : length (le_split n w) = n.
Proof. revert w. induction n as [|n IH]; intros w; cbn; [done|]. by rewrite IH. Qed.

Lemma le_split_bytes (n : nat) (w : Z) : bytes_ok (le_split n w).
Proof.
  revert w. induction n as [|n IH]; intros w; cbn; constructor; [|apply IH].
  unfold is_byte. rewrite land_255. apply Z.mod_pos_bound. lia.
Qed.

Lemma le_split_take (m n : nat) (w : Z) : take m (le_split n w) = le_split (Nat.min m n) w.
Proof.
  revert m w. induction n as [|n IH]; intros [|m] w; cbn; rewrite ?take_nil; try done.
  by rewrite IH.
Qed.

Lemma mod_mul_split (a b c : Z) :
  0 < b -> 0 < c -> a mod (b * c) = a mod b + b * ((a / b) mod c).
Proof.
  intros Hb Hc. rewrite !Z.mod_eq by lia. rewrite <- Z.div_div by lia. lia.
Qed.

(** The bytes of a register recombine to its value modulo [2 ^ (8n)]. *)
Lemma le_combine_split (n : nat) (w : Z) :
  le_combine (le_split n w) = w mod 2 ^ (8 * Z.of_nat n).
Proof.
  revert w. induction n as [|n IH]; intros w; cbn [le_split le_combine].
  - by rewrite Z.mod_1_r.
  - rewrite IH, land_255, Z.shiftr_div_pow2 by lia.
    replace (2 ^ (8 * Z.of_nat (S n))) with (2 ^ 8 * 2 ^ (8 * Z.of_nat n))
      by (rewrite <- Z.pow_add_r by lia; f_equal; lia).
    rewrite mod_mul_split by (try apply Z.pow_pos_nonneg; lia). reflexivity.
Qed.

Lemma le_combine_app (l1 l2 : list Z) :
  le_combine (l1 ++ l2) = le_combine l1 + 256 ^ Z.of_nat (length l1) * le_combine l2.
Proof.
  induction l1 as [|b l1 IH]; cbn [app le_combine length]; [lia|].
  rewrite IH, Nat2Z.inj_succ, Z.pow_succ_r by lia. lia.
Qed.

(** The six bytes [memcpy] takes from [DEVICEADDR[0..1]]. *)
Lemma ficr_addr_bytes (d0 d1 : Z) :
  take (Z.to_nat BLE_GAP_ADDR_LEN) (le_split 4 d0 ++ le_split 4 d1) = le_split 4 d0 ++ le_split 2 d1.
Proof.
  rewrite take_app, le_split_length, !le_split_take. unfold BLE_GAP_ADDR_LEN. reflexivity.
Qed.

(** ** Properties of the address stamper *)

(** (C8) A failing identity provider leaves the packet untouched and its
    error code is returned (spec 4.2). *)
Theorem set_local_addr_error `{IP : IdentityProvider} (p : mesh_packet) :
  fst sd_ble_gap_address_get <> NRF_SUCCESS ->
  mesh_packet_set_local_addr p = (fst sd_ble_gap_address_get, p).
Proof.
  unfold mesh_packet_set_local_addr. destruct sd_ble_gap_address_get as [e a]. cbn.
  intros He. by destruct (Z.eqb_spec e NRF_SUCCESS).
Qed.

(** (C9) On success the packet's address becomes the provider's six bytes
    and its header address type the provider's type cut to the 1-bit
    field; the PDU type, the length and the payload are unchanged. *)
Theorem set_local_addr_success `{IP : IdentityProvider} (p : mesh_packet) :
  fst sd_ble_gap_address_get = NRF_SUCCESS ->
  Z.of_nat (length (gap_addr (snd sd_ble_gap_address_get))) = BLE_GAP_ADDR_LEN ->
  mesh_packet_set_local_addr p =
    (NRF_SUCCESS,
     {| hdr_type := hdr_type p;
        hdr_addr_type := Z.land (gap_addr_type (snd sd_ble_gap_address_get)) 1;
        hdr_length := hdr_length p;
        pkt_addr := gap_addr (snd sd_ble_gap_address_get);
        pkt_payload := pkt_payload p |}).
Proof.
  unfold mesh_packet_set_local_addr. destruct sd_ble_gap_address_get as [e a]. cbn.
  intros -> Hlen. cbn. unfold stamp_addr. rewrite take_ge by (unfold BLE_GAP_ADDR_LEN in *; lia).
  reflexivity.
Qed.

(** (C10) The build without a SoftDevice stamps the factory address: it
    returns [NRF_SUCCESS], the packet's six address bytes read as a
    little-endian number (the order in which BLE sends them) are the low 48
    bits of the FICR, [DEVICEADDR[0]] then the low half of
    [DEVICEADDR[1]], the header's TxAdd bit is bit 0 of
    [DEVICEADDRTYPE], and the PDU type, the length and the payload are
    unchanged. *)
Theorem set_local_addr_ficr_spec (DEVICEADDR0 DEVICEADDR1 DEVICEADDRTYPE : Z) (p : mesh_packet) :
  exists q, mesh_packet_set_local_addr_ficr DEVICEADDR0 DEVICEADDR1 DEVICEADDRTYPE p = (NRF_SUCCESS, q) /\
    length (pkt_addr q) = 6%nat /\ bytes_ok (pkt_addr q) /\
    le_combine (pkt_addr q) = DEVICEADDR0 mod 2 ^ 32 + 2 ^ 32 * (DEVICEADDR1 mod 2 ^ 16) /\
    hdr_addr_type q = Z.land DEVICEADDRTYPE 1 /\
    hdr_type q = hdr_type p /\ hdr_length q = hdr_length p /\ pkt_payload q = pkt_payload p.
Proof.
  eexists. split; [reflexivity|]. cbn [set_hdr_addr_type set_addr pkt_addr hdr_addr_type hdr_type hdr_length pkt_payload].
  rewrite ficr_addr_bytes. split; [by rewrite length_app, !le_split_length|].
  split; [by apply Forall_app; split; apply le_split_bytes|].
  split; [|done]. rewrite le_combine_app, le_split_length, !le_combine_split. reflexivity.
Qed.

(** ** Witnesses *)
Definition test_identity : IdentityProvider :=
  {| sd_ble_gap_address_get := (NRF_SUCCESS, mk_gap_addr 2 [1; 2; 3; 4; 5; 6]) |}.
Definition failing_identity : IdentityProvider :=
  {| sd_ble_gap_address_get := (8, mk_gap_addr 0 []) |}.
Definition blank_packet : mesh_packet :=
  mk_packet 0 0 0 (replicate 6 0) (replicate 31 0).

Lemma set_local_addr_error_witness :
  @mesh_packet_set_local_addr failing_identity blank_packet = (8, blank_packet).
Proof. apply (@set_local_addr_error failing_identity blank_packet). cbn. unfold NRF_SUCCESS. lia. Defined.

Lemma set_local_addr_success_witness :
  @mesh_packet_set_local_addr test_identity blank_packet =
    (NRF_SUCCESS, mk_packet 0 0 0 [1; 2; 3; 4; 5; 6] (replicate 31 0)).
Proof. apply (@set_local_addr_success test_identity blank_packet); reflexivity. Defined.
