(* ===== verification/Locator.v ===== *)
(** * Locator: finding the application AD structure in the payload

    Models [mesh_packet_adv_data_get], [mesh_packet_handle_get] and
    [mesh_packet_has_additional_data] (mesh_packet.c lines 192-247).

    A [mesh_adv_data_t*] into the payload is its byte offset.  The loops
    advance it with [p_mesh_adv_data += p_mesh_adv_data->adv_data_length + 1],
    which in C moves the pointer by [(length + 1) * sizeof(mesh_adv_data_t)]
    bytes.  The walks are defined for any element size [stride]; the code is
    the instance [stride = sizeof_mesh_adv_data_t] (31), and [stride = 1] is
    the byte-wise walk over the AD chain that the spec describes.  Every
    byte read goes through [payload_byte], so a read outside the 31-byte
    payload is an explicit [OobAccess] fault. *)

From stdpp Require Import base list.
From Stdlib Require Import ZArith Lia.
From S2P Require Import Prelude MeshTypes.

Open Scope Z_scope.
Open Scope mesh_scope.

(** Iterations enough for both loops: the cursor grows by at least one
    byte per iteration and the loops stop at offset 31, resp. at offset
    [header.length - 7 <= 248]. *)
Definition locator_fuel : nat := Z.to_nat BLE_ADV_PACKET_PAYLOAD_MAX_LENGTH.
Definition scan_fuel : nat := 256.

Section Walk.
Variable stride : Z.

(** The [while] loop of [mesh_packet_adv_data_get] (lines 198-208): the
    offset of the first structure whose tag and uuid match, or [None] once
    the cursor reaches [&payload[BLE_ADV_PACKET_PAYLOAD_MAX_LENGTH]]. *)
Fixpoint adv_data_walk (fuel : nat) (p : mesh_packet) (a : Z) : exec (option Z) :=
  match fuel with
  | O => Fault OutOfFuel
  | S fuel' =>
      let* found := adv_is_mesh p a in
      if found then Ret (Some a)
      else
        let* len := adv_data_length p a in
        let a' := a + (len + 1) * stride in
        if a' >=? BLE_ADV_PACKET_PAYLOAD_MAX_LENGTH then Ret None
        else adv_data_walk fuel' p a'
  end.

(** [mesh_packet_adv_data_get]: NULL in, NULL out; the walk from
    [&payload[0]]; then the declared length is checked against
    [MESH_PACKET_ADV_OVERHEAD + RBC_MESH_VALUE_MAX_LEN]. *)
Definition adv_data_get_with (pp : option mesh_packet) : exec (option Z) :=
  match pp with
  | None => Ret None
  | Some p =>
      let* r := adv_data_walk locator_fuel p 0 in
      match r with
      | None => Ret None
      | Some a =>
          let* len := adv_data_length p a in
          if len >? MESH_PACKET_ADV_OVERHEAD + RBC_MESH_VALUE_MAX_LEN then Ret None
          else Ret (Some a)
      end
  end.

(** The [while] loop of [mesh_packet_has_additional_data] (lines 236-244),
    bounded by [&payload[0] + (header.length - 7)]. *)
Fixpoint additional_data_walk (fuel : nat) (p : mesh_packet) (bound a : Z) : exec bool :=
  match fuel with
  | O => Fault OutOfFuel
  | S fuel' =>
      if a <? bound then
        let* is_mesh := adv_is_mesh p a in
        if negb is_mesh then Ret true
        else
          let* len := adv_data_length p a in
          additional_data_walk fuel' p bound (a + (len + 1) * stride)
      else Ret false
  end.

(** [mesh_packet_has_additional_data]; the pointer is dereferenced without
    a NULL check. *)
Definition has_additional_data_with (p : mesh_packet) : exec bool :=
  additional_data_walk scan_fuel p (hdr_length p - 7) 0.
End Walk.

(** The functions as compiled: the cursor moves in units of
    [sizeof(mesh_adv_data_t)]. *)
Definition mesh_packet_adv_data_get (pp : option mesh_packet) : exec (option Z) :=
  adv_data_get_with sizeof_mesh_adv_data_t pp.

Definition mesh_packet_has_additional_data (p : mesh_packet) : exec bool :=
  has_additional_data_with sizeof_mesh_adv_data_t p.

(** [mesh_packet_handle_get]: the handle field of the structure found, or
    [RBC_MESH_INVALID_HANDLE]. *)
Definition mesh_packet_handle_get (pp : option mesh_packet) : exec Z :=
  let* r := mesh_packet_adv_data_get pp in
  match r with
  | None => Ret RBC_MESH_INVALID_HANDLE
  | Some a => deref pp (fun p => adv_handle p a)
  end.

(** ** Lemmas on the reads *)
Lemma payload_byte_Ret_range (p : mesh_packet) (off b : Z) :
  bytes_ok (pkt_payload p) -> payload_byte p off = Ret b ->
  is_byte b /\ 0 <= off < Z.of_nat (length (pkt_payload p)).
Proof.
  unfold payload_byte, load_byte. intros Hok. destruct (zget _ off) as [b'|] eqn:E; [|discriminate].
  intros [= <-]. unfold zget in E. destruct (Z.ltb_spec off 0); [discriminate|].
  split; [exact (Forall_lookup_1 _ _ _ _ Hok E)|].
  apply lookup_lt_Some in E. lia.
Qed.

Lemma adv_is_mesh_in (p : mesh_packet) (a : Z) :
  0 <= a -> a + 3 < Z.of_nat (length (pkt_payload p)) ->
  exists b, adv_is_mesh p a = Ret b.
Proof.
  intros H0 H3. unfold adv_is_mesh, adv_data_type, adv_mesh_uuid, payload_u16.
  destruct (payload_byte_in p (a + 1)) as (t & -> & _); [lia|]. cbn.
  destruct (negb _); [eauto|].
  destruct (payload_byte_in p (a + 2)) as (lo & -> & _); [lia|].
  destruct (payload_byte_in p (a + 2 + 1)) as (hi & -> & _); [lia|]. cbn. eauto.
Qed.

Lemma payload_length_wf (p : mesh_packet) :
  packet_wf p -> Z.of_nat (length (pkt_payload p)) = 31.
Proof. by intros (_ & _ & _ & _ & _ & H & _). Qed.

Lemma payload_ok_wf (p : mesh_packet) : packet_wf p -> bytes_ok (pkt_payload p).
Proof. by intros (_ & _ & _ & _ & _ & _ & H). Qed.

#[export] Hint Resolve payload_length_wf payload_ok_wf : mesh.

Lemma payload_byte_fault (p : mesh_packet) (off : Z) (f : fault) :
  payload_byte p off = Fault f -> f = OobAccess Payload off.
Proof. unfold payload_byte, load_byte. by destruct (zget _ _); intros [= <-]. Qed.

Lemma payload_u16_fault (p : mesh_packet) (off : Z) (f : fault) :
  payload_u16 p off = Fault f -> exists o, f = OobAccess Payload o.
Proof.
  unfold payload_u16. destruct (payload_byte p off) eqn:E1; cbn.
  - destruct (payload_byte p (off + 1)) eqn:E2; cbn; [discriminate|].
    intros [= ->]. apply payload_byte_fault in E2. eauto.
  - intros [= ->]. apply payload_byte_fault in E1. eauto.
Qed.

Lemma adv_is_mesh_fault (p : mesh_packet) (a : Z) (f : fault) :
  adv_is_mesh p a = Fault f -> exists o, f = OobAccess Payload o.
Proof.
  unfold adv_is_mesh, adv_data_type, adv_mesh_uuid.
  destruct (payload_byte p (a + 1)) eqn:E1; cbn.
  - destruct (negb _); [discriminate|].
    destruct (payload_u16 p (a + 2)) eqn:E2; cbn; [discriminate|].
    intros [= ->]. by apply payload_u16_fault in E2.
  - intros [= ->]. apply payload_byte_fault in E1. eauto.
Qed.

(** ** Termination: the walks never run out of fuel *)
Section Termination.
Variable stride : Z.
Hypothesis stride_pos : 1 <= stride.

Lemma adv_data_walk_fuel (p : mesh_packet) (fuel : nat) (a : Z) :
  bytes_ok (pkt_payload p) -> 0 <= a < 31 -> (Z.to_nat (31 - a) <= fuel)%nat ->
  adv_data_walk stride fuel p a <> Fault OutOfFuel.
Proof.
  intros Hok. revert a. induction fuel as [|fuel IH]; intros a Ha Hf; [lia|].
  cbn [adv_data_walk]. destruct (adv_is_mesh p a) as [[]|f] eqn:Em; cbn.
  - congruence.
  - destruct (adv_data_length p a) as [len|f] eqn:E; cbn.
    + apply payload_byte_Ret_range in E as [[Hl _] _]; [|done].
      unfold BLE_ADV_PACKET_PAYLOAD_MAX_LENGTH.
      destruct (Z.geb_spec (a + (len + 1) * stride) 31); [congruence|].
      apply IH; nia.
    + intros [= ->]. by apply payload_byte_fault in E.
  - intros [= ->]. apply adv_is_mesh_fault in Em as [? ?]. discriminate.
Qed.

Lemma additional_data_walk_fuel (p : mesh_packet) (fuel : nat) (bound a : Z) :
  bytes_ok (pkt_payload p) -> 0 <= a -> (Z.to_nat (bound - a) < fuel)%nat ->
  additional_data_walk stride fuel p bound a <> Fault OutOfFuel.
Proof.
  intros Hok. revert a. induction fuel as [|fuel IH]; intros a Ha Hf; [lia|].
  cbn [additional_data_walk]. destruct (Z.ltb_spec a bound); [|congruence].
  destruct (adv_is_mesh p a) as [[]|f] eqn:Em; cbn.
  - destruct (adv_data_length p a) as [len|f] eqn:E; cbn.
    + apply payload_byte_Ret_range in E as [[Hl _] _]; [|done]. apply IH; nia.
    + intros [= ->]. by apply payload_byte_fault in E.
  - congruence.
  - intros [= ->]. apply adv_is_mesh_fault in Em as [? ?]. discriminate.
Qed.
End Termination.

(** ** Reads of the first structure *)
Lemma take4_lookup (l : list Z) (b0 b1 b2 b3 : Z) :
  take 4 l = [b0; b1; b2; b3] ->
  l !! 0%nat = Some b0 /\ l !! 1%nat = Some b1 /\ l !! 2%nat = Some b2 /\ l !! 3%nat = Some b3.
Proof.
  intros H. rewrite <- !(lookup_take_lt l 4) by lia. rewrite H. done.
Qed.

Lemma adv_is_mesh_at (p : mesh_packet) (a t lo hi : Z) :
  0 <= a ->
  pkt_payload p !! Z.to_nat (a + 1) = Some t ->
  pkt_payload p !! Z.to_nat (a + 2) = Some lo ->
  pkt_payload p !! Z.to_nat (a + 2 + 1) = Some hi ->
  adv_is_mesh p a = Ret ((t =? MESH_ADV_DATA_TYPE) && (le16 lo hi =? MESH_UUID)).
Proof.
  intros Ha Ht Hlo Hhi. unfold adv_is_mesh, adv_data_type, adv_mesh_uuid.
  rewrite (payload_byte_lookup p (a + 1) t) by (done || lia). cbn.
  destruct (t =? MESH_ADV_DATA_TYPE); [|done]. cbn.
  by rewrite (payload_u16_lookup p (a + 2) lo hi) by (done || lia).
Qed.

(** The application-AD test applied to the first four payload bytes. *)
Definition first_ad_is_mesh (t lo hi : Z) : bool :=
  (t =? MESH_ADV_DATA_TYPE) && (le16 lo hi =? MESH_UUID).

Lemma adv_is_mesh_0 (p : mesh_packet) (l t lo hi : Z) :
  take 4 (pkt_payload p) = [l; t; lo; hi] ->
  adv_is_mesh p 0 = Ret (first_ad_is_mesh t lo hi) /\ adv_data_length p 0 = Ret l.
Proof.
  intros H. destruct (take4_lookup _ _ _ _ _ H) as (H0 & H1 & H2 & H3). split.
  - by apply adv_is_mesh_at.
  - by apply payload_byte_lookup.
Qed.

(** ** Properties of the locator *)

Lemma adv_data_get_at0 (p : mesh_packet) (l t lo hi : Z) :
  bytes_ok (pkt_payload p) -> take 4 (pkt_payload p) = [l; t; lo; hi] ->
  mesh_packet_adv_data_get (Some p) =
    Ret (if first_ad_is_mesh t lo hi && (l <=? 30) then Some 0 else None).
Proof.
  intros Hok H4. destruct (adv_is_mesh_0 p l t lo hi H4) as [Hm Hl].
  unfold mesh_packet_adv_data_get, adv_data_get_with.
  change locator_fuel with (S 30). cbn [adv_data_walk]. rewrite Hm. cbn.
  destruct (first_ad_is_mesh t lo hi); cbn.
  - rewrite Hl. cbn. unfold MESH_PACKET_ADV_OVERHEAD, RBC_MESH_VALUE_MAX_LEN.
    rewrite Z.gtb_ltb. destruct (Z.ltb_spec (7 + 23) l), (Z.leb_spec l 30); try reflexivity; lia.
  - rewrite Hl. cbn.
    apply payload_byte_Ret_range in Hl as [[Hl0 _] _]; [|done].
    unfold sizeof_mesh_adv_data_t, RBC_MESH_VALUE_MAX_LEN, BLE_ADV_PACKET_PAYLOAD_MAX_LENGTH.
    destruct (Z.geb_spec (0 + (l + 1) * (8 + 23)) 31); [done|lia].
Qed.

(** (C11) What the compiled locator does: because the cursor advances in
    units of [sizeof(mesh_adv_data_t)] = 31 bytes, the first step past the
    structure at offset 0 already leaves the payload.  So
    [mesh_packet_adv_data_get] returns offset 0 when the first structure
    carries the mesh tag and uuid and declares a length of at most 30, and
    NULL otherwise, whatever the rest of the payload holds. *)
Theorem adv_data_get_first_only (p : mesh_packet) (l t lo hi : Z) :
  packet_wf p -> take 4 (pkt_payload p) = [l; t; lo; hi] ->
  mesh_packet_adv_data_get (Some p) =
    Ret (if first_ad_is_mesh t lo hi && (l <=? 30) then Some 0 else None).
Proof. intros Hwf. apply adv_data_get_at0. eauto with mesh. Qed.

(** (C12) Termination: for any element size [stride >= 1] (the code's 31
    as well as a byte-wise walk), neither loop of the locator runs out of
    iterations on a well-formed packet: [locator_fuel] and [scan_fuel]
    bound the number of iterations. *)
Theorem locator_terminates (stride : Z) (p : mesh_packet) :
  1 <= stride -> packet_wf p ->
  adv_data_get_with stride (Some p) <> Fault OutOfFuel /\
  has_additional_data_with stride p <> Fault OutOfFuel.
Proof.
  intros Hs Hwf. split.
  - unfold adv_data_get_with.
    pose proof (adv_data_walk_fuel stride Hs p locator_fuel 0 (payload_ok_wf p Hwf)) as Hw.
    destruct (adv_data_walk stride locator_fuel p 0) as [[a|]|f] eqn:E; cbn.
    + destruct (adv_data_length p a) eqn:El; cbn.
      * destruct (_ >? _); discriminate.
      * intros [= ->]. by apply payload_byte_fault in El.
    + discriminate.
    + apply Hw; [lia | cbv; lia].
  - unfold has_additional_data_with.
    destruct Hwf as (_ & _ & Hhl & _ & _ & _ & Hok). unfold is_byte in Hhl.
    apply additional_data_walk_fuel; [lia | done | lia | unfold scan_fuel; lia].
Qed.

Lemma adv_data_walk_sound (stride : Z) (p : mesh_packet) (fuel : nat) (a0 a : Z) :
  0 <= stride -> bytes_ok (pkt_payload p) -> 0 <= a0 < 31 ->
  adv_data_walk stride fuel p a0 = Ret (Some a) ->
  adv_is_mesh p a = Ret true /\ a0 <= a < 31.
Proof.
  intros Hs Hok. revert a0. induction fuel as [|fuel IH]; intros a0 Ha0 Hw; [discriminate|].
  cbn [adv_data_walk] in Hw. destruct (adv_is_mesh p a0) as [[]|f] eqn:Em; cbn in Hw; [|idtac|discriminate].
  - injection Hw as <-. split; [done|lia].
  - destruct (adv_data_length p a0) as [len|] eqn:El; cbn in Hw; [|discriminate].
    apply payload_byte_Ret_range in El as [[Hl _] _]; [|done].
    unfold BLE_ADV_PACKET_PAYLOAD_MAX_LENGTH in Hw.
    destruct (Z.geb_spec (a0 + (len + 1) * stride) 31); [discriminate|].
    apply IH in Hw as [Hm Hr]; [|nia]. split; [done|nia].
Qed.

Lemma adv_data_get_Some (stride : Z) (p : mesh_packet) (a : Z) :
  0 <= stride -> packet_wf p ->
  adv_data_get_with stride (Some p) = Ret (Some a) ->
  0 <= a < BLE_ADV_PACKET_PAYLOAD_MAX_LENGTH /\ adv_is_mesh p a = Ret true /\
  exists len, adv_data_length p a = Ret len /\
              len <= MESH_PACKET_ADV_OVERHEAD + RBC_MESH_VALUE_MAX_LEN.
Proof.
  intros Hs Hwf. unfold adv_data_get_with.
  destruct (adv_data_walk stride locator_fuel p 0) as [[a'|]|f] eqn:E; cbn; [|discriminate|discriminate].
  destruct (adv_data_length p a') as [len|f] eqn:El; cbn; [|discriminate].
  apply adv_data_walk_sound in E as [Hm Hr]; [|done|eauto with mesh|lia].
  destruct (Z.gtb_spec len (MESH_PACKET_ADV_OVERHEAD + RBC_MESH_VALUE_MAX_LEN)); [discriminate|].
  intros [= <-]. unfold BLE_ADV_PACKET_PAYLOAD_MAX_LENGTH. split; [lia|]. split; [done|]. eauto.
Qed.

(** (C13) Soundness, for any element size: an offset returned by the
    locator lies inside the payload, the structure there carries the mesh
    tag and uuid, and its declared length is at most
    [MESH_PACKET_ADV_OVERHEAD + RBC_MESH_VALUE_MAX_LEN]. *)
Theorem adv_data_get_sound (stride : Z) (p : mesh_packet) (a : Z) :
  0 <= stride -> packet_wf p ->
  adv_data_get_with stride (Some p) = Ret (Some a) ->
  0 <= a < BLE_ADV_PACKET_PAYLOAD_MAX_LENGTH /\ adv_is_mesh p a = Ret true /\
  exists len, adv_data_length p a = Ret len /\
              len <= MESH_PACKET_ADV_OVERHEAD + RBC_MESH_VALUE_MAX_LEN.
Proof. apply adv_data_get_Some. Qed.

(** A received advertisement with a Flags structure ([2; 0x01; 0x06])
    before the mesh structure at offset 3 (handle 5, version 1, two data
    bytes). *)
Definition flags_then_mesh : mesh_packet :=
  mk_packet 2 0 19 (replicate 6 0)
    ([2; 1; 6; 9; 22; 228; 254; 5; 0; 1; 0; 170; 187] ++ replicate 18 0).

Lemma has_additional_data_at0 (p : mesh_packet) (l t lo hi : Z) :
  bytes_ok (pkt_payload p) -> take 4 (pkt_payload p) = [l; t; lo; hi] -> hdr_length p <= 38 ->
  mesh_packet_has_additional_data p
  = Ret ((7 <? hdr_length p) && negb (first_ad_is_mesh t lo hi)).
Proof.
  intros Hok H4 Hhl. destruct (adv_is_mesh_0 p l t lo hi H4) as [Hm Hl].
  unfold mesh_packet_has_additional_data, has_additional_data_with.
  change scan_fuel with (S (S 254)). cbn [additional_data_walk].
  destruct (Z.ltb_spec 0 (hdr_length p - 7)), (Z.ltb_spec 7 (hdr_length p)); try lia; cbn; [|done].
  rewrite Hm. cbn. destruct (first_ad_is_mesh t lo hi); cbn; [|done].
  rewrite Hl. cbn.
  apply payload_byte_Ret_range in Hl as [[Hl0 _] _]; [|done].
  unfold sizeof_mesh_adv_data_t, RBC_MESH_VALUE_MAX_LEN.
  destruct (Z.ltb_spec (0 + (l + 1) * (8 + 23)) (hdr_length p - 7)); [lia|done].
Qed.

(** When the first structure is not the application one, the scan stops
    there, whatever the header length. *)
Lemma has_additional_data_foreign_first (p : mesh_packet) (l t lo hi : Z) :
  take 4 (pkt_payload p) = [l; t; lo; hi] -> first_ad_is_mesh t lo hi = false ->
  mesh_packet_has_additional_data p = Ret (7 <? hdr_length p).
Proof.
  intros H4 Hf. destruct (adv_is_mesh_0 p l t lo hi H4) as [Hm _].
  unfold mesh_packet_has_additional_data, has_additional_data_with.
  change scan_fuel with (S (S 254)). cbn [additional_data_walk].
  destruct (Z.ltb_spec 0 (hdr_length p - 7)), (Z.ltb_spec 7 (hdr_length p)); try lia; cbn; [|done].
  by rewrite Hm, Hf.
Qed.

(** (C14) What the compiled foreign-data scan does on a packet whose header
    length is at most 38 (a payload of at most 31 bytes plus the 6 address
    bytes and one): it reads only the first structure, and reports foreign
    data exactly when the scan bound [header.length - 7] is positive and
    that structure is not the application one. *)
Theorem has_additional_data_first_only (p : mesh_packet) (l t lo hi : Z) :
  packet_wf p -> take 4 (pkt_payload p) = [l; t; lo; hi] -> hdr_length p <= 38 ->
  mesh_packet_has_additional_data p
  = Ret ((7 <? hdr_length p) && negb (first_ad_is_mesh t lo hi)).
Proof. intros Hwf. apply has_additional_data_at0. eauto with mesh. Qed.

(** (C15) The foreign-data scan has no capacity guard: when the first
    structure carries the mesh tag and uuid and the header length claims
    more than the first [31 * (length + 1)]-byte step covers (possible for
    a declared length of at most 6 and a corrupted header length), the
    next iteration reads the type byte [31 * (length + 1) + 1] bytes into
    a 31-byte payload. *)
Theorem has_additional_data_overread (p : mesh_packet) (l lo hi : Z) :
  packet_wf p -> take 4 (pkt_payload p) = [l; MESH_ADV_DATA_TYPE; lo; hi] ->
  le16 lo hi = MESH_UUID ->
  (l + 1) * sizeof_mesh_adv_data_t < hdr_length p - 7 ->
  mesh_packet_has_additional_data p
  = Fault (OobAccess Payload ((l + 1) * sizeof_mesh_adv_data_t + 1)).
Proof.
  intros Hwf H4 Hu Hlt. destruct (adv_is_mesh_0 p l _ lo hi H4) as [Hm Hl].
  unfold mesh_packet_has_additional_data, has_additional_data_with.
  change scan_fuel with (S (S 254)). cbn [additional_data_walk].
  pose proof Hl as Hr. apply payload_byte_Ret_range in Hr as [[Hl0 _] _]; [|eauto with mesh].
  unfold sizeof_mesh_adv_data_t, RBC_MESH_VALUE_MAX_LEN in *.
  destruct (Z.ltb_spec 0 (hdr_length p - 7)); [|lia]. cbn.
  rewrite Hm. unfold first_ad_is_mesh. rewrite Hu, !Z.eqb_refl. cbn.
  rewrite Hl. cbn.
  destruct (Z.ltb_spec (0 + (l + 1) * (8 + 23)) (hdr_length p - 7)); [|lia].
  unfold adv_is_mesh, adv_data_type.
  rewrite payload_byte_out by (rewrite (payload_length_wf p Hwf); lia).
  cbn. f_equal.
Qed.

(** ** Witnesses *)

(** A packet holding only the mesh structure (handle 5, version 1, data
    [0xAA; 0xBB]), as [mesh_packet_build] leaves it. *)
Definition mesh_only : mesh_packet :=
  mk_packet 2 0 16 (replicate 6 0)
    ([9; 22; 228; 254; 5; 0; 1; 0; 170; 187] ++ replicate 21 0).

(** A hostile packet: a mesh tag and uuid under a declared length of 0,
    and a header length of 40. *)
Definition truncated_mesh_long_header : mesh_packet :=
  mk_packet 2 0 40 (replicate 6 0) ([0; 22; 228; 254] ++ replicate 27 0).

Lemma adv_data_get_first_only_witness :
  mesh_packet_adv_data_get (Some mesh_only) = Ret (Some 0).
Proof.
  apply (adv_data_get_first_only mesh_only 9 22 228 254); [solve_packet_wf | reflexivity].
Defined.

Lemma locator_terminates_witness :
  adv_data_get_with 1 (Some flags_then_mesh) <> Fault OutOfFuel /\
  has_additional_data_with 1 flags_then_mesh <> Fault OutOfFuel.
Proof. apply (locator_terminates 1 flags_then_mesh); [lia | solve_packet_wf]. Defined.

Lemma adv_data_get_sound_witness :
  0 <= 3 < BLE_ADV_PACKET_PAYLOAD_MAX_LENGTH /\ adv_is_mesh flags_then_mesh 3 = Ret true /\
  exists len, adv_data_length flags_then_mesh 3 = Ret len /\
              len <= MESH_PACKET_ADV_OVERHEAD + RBC_MESH_VALUE_MAX_LEN.
Proof.
  apply (adv_data_get_sound 1 flags_then_mesh 3); [lia | solve_packet_wf | vm_compute; reflexivity].
Defined.

Lemma has_additional_data_first_only_witness :
  mesh_packet_has_additional_data flags_then_mesh = Ret true.
Proof.
  apply (has_additional_data_first_only flags_then_mesh 2 1 6 9);
    [solve_packet_wf | reflexivity | cbn; lia].
Defined.

Lemma has_additional_data_overread_witness :
  mesh_packet_has_additional_data truncated_mesh_long_header = Fault (OobAccess Payload 32).
Proof.
  apply (has_additional_data_overread truncated_mesh_long_header 0 228 254);
    [solve_packet_wf | reflexivity | reflexivity | unfold_consts; cbn; lia].
Defined.

(** ** The AD chain of the spec

    Section 3 of the spec: the payload is a chain of structures, each a
    length byte followed by that many bytes, walked from offset 0 by
    [1 + length].  [ad_offsets fuel pl off stop] lists the offsets of the
    structures that start before [stop]. *)
Fixpoint ad_offsets (fuel : nat) (pl : list Z) (off stop : Z) : list Z :=
  match fuel with
  | O => []
  | S fuel' =>
      if off <? stop then
        match zget pl off with
        | Some len => off :: ad_offsets fuel' pl (off + len + 1) stop
        | None => [off]
        end
      else []
  end.
