(* ===== verification/Builder.v ===== *)
(** * Builder: [mesh_packet_build]

    Models [mesh_packet_build] (mesh_packet.c lines 125-161): the NULL and
    length guards, the address stamp (whose result the code ignores), the
    header stores, the eight fixed bytes of the mesh structure at the start
    of the payload, and the [memcpy] of the caller's data, which reads
    [length] bytes of the caller's buffer. *)

From stdpp Require Import base list.
From Stdlib Require Import ZArith Lia.
From S2P Require Import Prelude MeshTypes AddrStamp Locator.

Open Scope Z_scope.
Open Scope mesh_scope.

(** The fixed part of [mesh_adv_data_t] as the stores of lines 149-154
    leave it: length, type, uuid, handle and version, the 16-bit fields
    little-endian. *)
Definition mesh_adv_header (handle version length : Z) : list Z :=
  [u8 (MESH_PACKET_ADV_OVERHEAD + length); MESH_ADV_DATA_TYPE;
   lo8 MESH_UUID; hi8 MESH_UUID; lo8 handle; hi8 handle; lo8 version; hi8 version].

(** [memcpy(dst + off, src, n)] from a caller buffer [src]: reading past
    its end is an access outside the caller's object. *)
Definition memcpy_from (dst : list Z) (off : Z) (src : list Z) (n : Z) : exec (list Z) :=
  if Z.of_nat (length src) <? n then Fault (OobAccess CallerBuffer (Z.of_nat (length src)))
  else store_bytes Payload dst off (take (Z.to_nat n) src).

Section Build.
Context `{IP : IdentityProvider}.

(** [mesh_packet_build]; [data] is [None] for a NULL data pointer. *)
Definition mesh_packet_build (pp : option mesh_packet) (handle version : Z)
    (data : option (list Z)) (length : Z) : exec (Z * option mesh_packet) :=
  match pp with
  | None => Ret (NRF_ERROR_NULL, None)
  | Some p =>
      if length >? RBC_MESH_VALUE_MAX_LEN then Ret (NRF_ERROR_INVALID_LENGTH, Some p)
      else
        let p1 := snd (mesh_packet_set_local_addr p) in
        let p2 := set_hdr_type (set_hdr_length p1 (MESH_PACKET_OVERHEAD + length))
                               BLE_PACKET_TYPE_ADV_NONCONN_IND in
        let* pl := store_bytes Payload (pkt_payload p2) 0
                     (mesh_adv_header handle version length) in
        let* pl' := match data with
                    | Some d => if length >? 0 then memcpy_from pl 8 d length else Ret pl
                    | None => Ret pl
                    end in
        Ret (NRF_SUCCESS, Some (set_payload p2 pl'))
  end.
End Build.

(** The data bytes the build copies. *)
Definition build_data (data : option (list Z)) (length : Z) : list Z :=
  match data with
  | Some d => if length >? 0 then take (Z.to_nat length) d else []
  | None => []
  end.

(** The caller's buffer holds at least [length] bytes (or is NULL). *)
Definition data_ok (data : option (list Z)) (length : Z) : Prop :=
  match data with
  | Some d => length <= Z.of_nat (base.length d) /\ bytes_ok d
  | None => True
  end.

(** ** The packet a successful build produces *)
Lemma mesh_adv_header_length (h v n : Z) : length (mesh_adv_header h v n) = 8%nat.
Proof. reflexivity. Qed.

Lemma build_data_length (data : option (list Z)) (n : Z) :
  0 <= n -> data_ok data n -> Z.of_nat (length (build_data data n)) <= n.
Proof.
  intros Hn. destruct data as [d|]; cbn; [|lia]. intros [Hd _].
  destruct (Z.gtb_spec n 0); cbn; [rewrite length_take|]; lia.
Qed.

Lemma store_bytes_at0 (r : region) (l bs : list Z) :
  (length bs <= length l)%nat -> store_bytes r l 0 bs = Ret (bs ++ drop (length bs) l).
Proof. intros H. exact (store_bytes_app r l 0 bs H). Qed.

Lemma store_bytes_after (r : region) (hd pl bs : list Z) :
  length hd = 8%nat -> (8 + length bs <= length pl)%nat ->
  store_bytes r (hd ++ drop 8 pl) 8 bs = Ret (hd ++ bs ++ drop (8 + length bs) pl).
Proof.
  intros Hhd Hbs. change 8 with (Z.of_nat 8).
  rewrite store_bytes_app by (rewrite length_app, length_drop; lia).
  rewrite take_app_length' by done. rewrite drop_app_ge by lia.
  rewrite Hhd, drop_drop. by replace (8 + (8 + length bs - 8))%nat with (8 + length bs)%nat by lia.
Qed.

Section BuildOk.
Context `{IP : IdentityProvider}.

Lemma build_ok (p : mesh_packet) (h v : Z) (data : option (list Z)) (n : Z) :
  packet_wf p -> 0 <= n <= RBC_MESH_VALUE_MAX_LEN -> data_ok data n ->
  mesh_packet_build (Some p) h v data n =
  Ret (NRF_SUCCESS, Some
    {| hdr_type := BLE_PACKET_TYPE_ADV_NONCONN_IND;
       hdr_addr_type := hdr_addr_type (snd (mesh_packet_set_local_addr p));
       hdr_length := MESH_PACKET_OVERHEAD + n;
       pkt_addr := pkt_addr (snd (mesh_packet_set_local_addr p));
       pkt_payload := mesh_adv_header h v n ++ build_data data n ++
                      drop (8 + length (build_data data n)) (pkt_payload p) |}).
Proof.
  intros Hwf Hn Hd.
  pose proof (payload_length_wf p Hwf) as Hlen.
  pose proof (build_data_length data n (proj1 Hn) Hd) as Hbd.
  destruct (set_local_addr_payload p) as (Hpl & _ & _).
  unfold mesh_packet_build. unfold RBC_MESH_VALUE_MAX_LEN in *.
  destruct (Z.gtb_spec n 23); [lia|].
  cbn [set_hdr_type set_hdr_length pkt_payload]. rewrite Hpl.
  rewrite store_bytes_at0 by (rewrite mesh_adv_header_length; lia).
  rewrite mesh_adv_header_length. cbn [exec_bind].
  assert (Hmid : match data with
                 | Some d => if n >? 0 then memcpy_from (mesh_adv_header h v n ++ drop 8 (pkt_payload p)) 8 d n
                             else Ret (mesh_adv_header h v n ++ drop 8 (pkt_payload p))
                 | None => Ret (mesh_adv_header h v n ++ drop 8 (pkt_payload p)) end
    = Ret (mesh_adv_header h v n ++ build_data data n ++
           drop (8 + length (build_data data n)) (pkt_payload p))).
  { destruct data as [d|]; cbn [build_data]; [|done]. destruct Hd as [Hdn _].
    destruct (Z.gtb_spec n 0); [|done]. unfold memcpy_from.
    destruct (Z.ltb_spec (Z.of_nat (length d)) n); [lia|].
    rewrite store_bytes_after by (rewrite ?length_take; (done || lia)). done. }
  rewrite Hmid. cbn [exec_bind].
  unfold set_payload, set_hdr_type, set_hdr_length.
  cbn [hdr_type hdr_addr_type hdr_length pkt_addr pkt_payload].
  rewrite u8_small by (unfold_consts; lia). reflexivity.
Qed.
End BuildOk.

(** ** Lemmas on the built payload *)
Lemma mesh_adv_header_bytes (h v n : Z) : bytes_ok (mesh_adv_header h v n).
Proof.
  unfold mesh_adv_header, bytes_ok.
  repeat apply Forall_cons_2; auto with mesh; unfold is_byte, MESH_ADV_DATA_TYPE; lia.
Qed.

Lemma build_data_bytes (data : option (list Z)) (n : Z) :
  data_ok data n -> bytes_ok (build_data data n).
Proof.
  destruct data as [d|]; cbn; [|constructor]. intros [_ Hok].
  destruct (n >? 0); [by apply Forall_take|constructor].
Qed.

Lemma built_payload_wf (h v n : Z) (data : option (list Z)) (old : list Z) :
  0 <= n <= RBC_MESH_VALUE_MAX_LEN -> data_ok data n ->
  Z.of_nat (length old) = 31 -> bytes_ok old ->
  let pl := mesh_adv_header h v n ++ build_data data n ++
            drop (8 + length (build_data data n)) old in
  Z.of_nat (length pl) = 31 /\ bytes_ok pl.
Proof.
  intros Hn Hd Hlen Hok pl. pose proof (build_data_length data n (proj1 Hn) Hd).
  unfold RBC_MESH_VALUE_MAX_LEN in Hn. split.
  - unfold pl. rewrite !length_app, length_drop, mesh_adv_header_length. lia.
  - unfold pl, bytes_ok. apply Forall_app; split; [apply mesh_adv_header_bytes|].
    apply Forall_app; split; [by apply build_data_bytes|]. by apply Forall_drop.
Qed.

Lemma build_data_exact (d : list Z) (n : Z) :
  0 <= n <= Z.of_nat (length d) -> build_data (Some d) n = take (Z.to_nat n) d.
Proof. intros Hn. cbn. destruct (Z.gtb_spec n 0); [done|]. by replace n with 0 by lia. Qed.

Section BuildProps.
Context `{IP : IdentityProvider}.

(** The facts about a freshly built packet that the properties share. *)
Lemma build_ok_facts (p p' : mesh_packet) (h v : Z) (data : option (list Z)) (n code : Z) :
  packet_wf p -> 0 <= n <= RBC_MESH_VALUE_MAX_LEN -> data_ok data n ->
  mesh_packet_build (Some p) h v data n = Ret (code, Some p') ->
  code = NRF_SUCCESS /\ hdr_type p' = BLE_PACKET_TYPE_ADV_NONCONN_IND /\
  hdr_length p' = MESH_PACKET_OVERHEAD + n /\
  pkt_payload p' = mesh_adv_header h v n ++ build_data data n ++
                   drop (8 + length (build_data data n)) (pkt_payload p) /\
  Z.of_nat (length (pkt_payload p')) = 31 /\ bytes_ok (pkt_payload p').
Proof.
  intros Hwf Hn Hd Hb. rewrite build_ok in Hb by done. injection Hb as <- <-. cbn.
  destruct (built_payload_wf h v n data (pkt_payload p) Hn Hd) as [Hl Hok]; eauto with mesh.
  repeat split; done.
Qed.

Lemma built_first_ad (h v n : Z) (rest : list Z) :
  0 <= n <= RBC_MESH_VALUE_MAX_LEN ->
  take 4 (mesh_adv_header h v n ++ rest) = [MESH_PACKET_ADV_OVERHEAD + n; 22; 228; 254] /\
  first_ad_is_mesh 22 228 254 = true /\ MESH_PACKET_ADV_OVERHEAD + n <= 30.
Proof.
  intros Hn. cbn. unfold_consts. rewrite u8_small by lia.
  split; [reflexivity|]. split; [reflexivity|lia].
Qed.

(** (C16) The error paths of [mesh_packet_build] change nothing: a NULL
    packet gives [NRF_ERROR_NULL]; a data length above
    [RBC_MESH_VALUE_MAX_LEN] gives [NRF_ERROR_INVALID_LENGTH] and returns
    the packet as it was (the address is not even stamped). *)
Theorem build_rejects (p : mesh_packet) (h v : Z) (data : option (list Z)) (n : Z) :
  RBC_MESH_VALUE_MAX_LEN < n ->
  mesh_packet_build (Some p) h v data n = Ret (NRF_ERROR_INVALID_LENGTH, Some p) /\
  mesh_packet_build None h v data n = Ret (NRF_ERROR_NULL, None).
Proof.
  intros Hn. split; [|done]. unfold mesh_packet_build.
  by destruct (Z.gtb_spec n RBC_MESH_VALUE_MAX_LEN); [|lia].
Qed.

(** (C17) A successful build leaves a non-connectable advertisement whose
    payload, up to the length the header declares, is a chain of exactly
    one AD structure: the mesh structure at offset 0, with the mesh tag,
    uuid, handle and version. *)
Theorem build_single_structure (p p' : mesh_packet) (h v : Z) (data : option (list Z)) (n code : Z) :
  packet_wf p -> 0 <= n <= RBC_MESH_VALUE_MAX_LEN -> data_ok data n ->
  mesh_packet_build (Some p) h v data n = Ret (code, Some p') ->
  code = NRF_SUCCESS /\ hdr_type p' = BLE_PACKET_TYPE_ADV_NONCONN_IND /\
  take 8 (pkt_payload p') = mesh_adv_header h v n /\
  ad_offsets 31 (pkt_payload p') 0 (hdr_length p' - BLE_GAP_ADDR_LEN) = [0].
Proof.
  intros Hwf Hn Hd Hb.
  destruct (build_ok_facts p p' h v data n code Hwf Hn Hd Hb) as (-> & Ht & Hl & Hpl & _).
  split; [done|]. split; [done|]. rewrite Hpl, take_app_length' by done. split; [done|].
  rewrite Hl, MESH_PACKET_OVERHEAD_eq. change BLE_GAP_ADDR_LEN with 6. cbn [ad_offsets].
  unfold RBC_MESH_VALUE_MAX_LEN in Hn.
  destruct (Z.ltb_spec 0 (14 + n - 6)); [|lia].
  change (zget (mesh_adv_header h v n ++ build_data data n ++
                drop (8 + length (build_data data n)) (pkt_payload p)) 0)
    with (Some (u8 (MESH_PACKET_ADV_OVERHEAD + n))).
  unfold MESH_PACKET_ADV_OVERHEAD. rewrite u8_small by lia.
  cbn [ad_offsets]. destruct (Z.ltb_spec (0 + (7 + n) + 1) (14 + n - 6)); [lia|done].
Qed.
End BuildProps.

Section BuildRoundtrip.
Context `{IP : IdentityProvider}.

Lemma built_lookup (h v n : Z) (rest : list Z) :
  (mesh_adv_header h v n ++ rest) !! 4%nat = Some (lo8 h) /\
  (mesh_adv_header h v n ++ rest) !! 5%nat = Some (hi8 h) /\
  (mesh_adv_header h v n ++ rest) !! 6%nat = Some (lo8 v) /\
  (mesh_adv_header h v n ++ rest) !! 7%nat = Some (hi8 v).
Proof. repeat split. Qed.

(** What the locator, the handle getter and the foreign-data scan see in
    a freshly built packet. *)
Lemma built_locate (p p' : mesh_packet) (h v : Z) (data : option (list Z)) (n code : Z) :
  packet_wf p -> 0 <= n <= RBC_MESH_VALUE_MAX_LEN -> data_ok data n ->
  mesh_packet_build (Some p) h v data n = Ret (code, Some p') ->
  mesh_packet_adv_data_get (Some p') = Ret (Some 0) /\
  mesh_packet_handle_get (Some p') = Ret (u16 h) /\
  mesh_packet_has_additional_data p' = Ret false.
Proof.
  intros Hwf Hn Hd Hb.
  destruct (build_ok_facts p p' h v data n code Hwf Hn Hd Hb) as (_ & _ & Hl & Hpl & _ & Hpok).
  destruct (built_first_ad h v n (build_data data n ++
              drop (8 + length (build_data data n)) (pkt_payload p)) Hn) as (H4 & Hm & H30).
  destruct (built_lookup h v n (build_data data n ++
              drop (8 + length (build_data data n)) (pkt_payload p))) as (_ & H5 & _).
  rewrite <- Hpl in H4, H5.
  assert (Hget : mesh_packet_adv_data_get (Some p') = Ret (Some 0)).
  { rewrite (adv_data_get_at0 p' _ _ _ _ Hpok H4), Hm.
    by destruct (Z.leb_spec (MESH_PACKET_ADV_OVERHEAD + n) 30); [|lia]. }
  split; [done|]. split.
  - unfold mesh_packet_handle_get. rewrite Hget. cbn. unfold adv_handle. change (0 + 4) with 4.
    rewrite (payload_u16_lookup p' 4 (lo8 h) (hi8 h)) by (rewrite ?Hpl; done || lia).
    by rewrite le16_lo8_hi8.
  - rewrite (has_additional_data_at0 p' _ _ _ _ Hpok H4) by (rewrite Hl; unfold_consts; lia).
    by rewrite Hm, andb_false_r.
Qed.

(** (C18) Round trip: after a successful [mesh_packet_build] of [n <= 23]
    bytes of [d], the locator finds the mesh structure at offset 0,
    [mesh_packet_handle_get] returns the handle, and the version field and
    the [n] data bytes read back as written. *)
Theorem build_roundtrip (p p' : mesh_packet) (h v : Z) (d : list Z) (n code : Z) :
  packet_wf p -> 0 <= n <= RBC_MESH_VALUE_MAX_LEN -> n <= Z.of_nat (length d) -> bytes_ok d ->
  mesh_packet_build (Some p) h v (Some d) n = Ret (code, Some p') ->
  mesh_packet_adv_data_get (Some p') = Ret (Some 0) /\
  mesh_packet_handle_get (Some p') = Ret (u16 h) /\
  adv_version p' 0 = Ret (u16 v) /\
  adv_data_bytes p' 0 (Z.to_nat n) = Ret (take (Z.to_nat n) d).
Proof.
  intros Hwf Hn Hnd Hok Hb.
  assert (Hd : data_ok (Some d) n) by (split; done).
  destruct (build_ok_facts p p' h v (Some d) n code Hwf Hn Hd Hb) as (_ & _ & _ & Hpl & Hlen & Hpok).
  destruct (built_locate p p' h v (Some d) n code Hwf Hn Hd Hb) as (Hget & Hh & _).
  destruct (built_lookup h v n (build_data (Some d) n ++
              drop (8 + length (build_data (Some d) n)) (pkt_payload p))) as (_ & _ & H6 & H7).
  rewrite <- Hpl in H6, H7.
  split; [done|]. split; [done|]. split.
  - unfold adv_version. change (0 + 6) with 6. rewrite (payload_u16_lookup p' 6 (lo8 v) (hi8 v)) by (done || lia).
    by rewrite le16_lo8_hi8.
  - unfold adv_data_bytes. rewrite payload_bytes_take by (unfold RBC_MESH_VALUE_MAX_LEN in Hn; lia).
    rewrite Hpl, build_data_exact by lia. cbn [Z.to_nat Pos.to_nat].
    change (Z.to_nat (0 + 8)) with 8%nat. rewrite drop_app_length' by done.
    rewrite take_app_length' by (rewrite length_take; lia). done.
Qed.

(** (C19) A freshly built packet carries no foreign AD data, so
    [mesh_packet_take_ownership] will not sanitize it. *)
Theorem build_no_foreign_data (p p' : mesh_packet) (h v : Z) (data : option (list Z)) (n code : Z) :
  packet_wf p -> 0 <= n <= RBC_MESH_VALUE_MAX_LEN -> data_ok data n ->
  mesh_packet_build (Some p) h v data n = Ret (code, Some p') ->
  mesh_packet_has_additional_data p' = Ret false.
Proof.
  intros Hwf Hn Hd Hb. apply (built_locate p p' h v data n code Hwf Hn Hd Hb).
Qed.
End BuildRoundtrip.

(** ** Witnesses: building handle 5, version 1, data [0xAA; 0xBB] *)
Definition built_example : mesh_packet :=
  mk_packet 2 0 16 [1; 2; 3; 4; 5; 6] ([9; 22; 228; 254; 5; 0; 1; 0; 170; 187] ++ replicate 21 0).

Lemma build_example_run :
  @mesh_packet_build test_identity (Some blank_packet) 5 1 (Some [170; 187]) 2
  = Ret (NRF_SUCCESS, Some built_example).
Proof. vm_compute. reflexivity. Qed.

Ltac solve_data_ok := split; [cbn; lia | unfold bytes_ok, is_byte; repeat constructor; lia].

Lemma build_rejects_witness :
  @mesh_packet_build test_identity (Some blank_packet) 5 1 None 24
    = Ret (NRF_ERROR_INVALID_LENGTH, Some blank_packet) /\
  @mesh_packet_build test_identity None 5 1 None 24 = Ret (NRF_ERROR_NULL, None).
Proof. apply (@build_rejects test_identity blank_packet 5 1 None 24). unfold_consts. lia. Defined.

Lemma build_single_structure_witness :
  NRF_SUCCESS = NRF_SUCCESS /\ hdr_type built_example = BLE_PACKET_TYPE_ADV_NONCONN_IND /\
  take 8 (pkt_payload built_example) = mesh_adv_header 5 1 2 /\
  ad_offsets 31 (pkt_payload built_example) 0 (hdr_length built_example - BLE_GAP_ADDR_LEN) = [0].
Proof.
  apply (@build_single_structure test_identity blank_packet built_example 5 1 (Some [170; 187]) 2);
    [solve_packet_wf | unfold_consts; lia | solve_data_ok | exact build_example_run].
Defined.

Lemma build_roundtrip_witness :
  mesh_packet_adv_data_get (Some built_example) = Ret (Some 0) /\
  mesh_packet_handle_get (Some built_example) = Ret (u16 5) /\
  adv_version built_example 0 = Ret (u16 1) /\
  adv_data_bytes built_example 0 (Z.to_nat 2) = Ret (take (Z.to_nat 2) [170; 187]).
Proof.
  apply (@build_roundtrip test_identity blank_packet built_example 5 1 [170; 187] 2 NRF_SUCCESS);
    [solve_packet_wf | unfold_consts; lia | cbn; lia | unfold bytes_ok, is_byte; repeat constructor; lia
    | exact build_example_run].
Defined.

Lemma build_no_foreign_data_witness :
  mesh_packet_has_additional_data built_example = Ret false.
Proof.
  apply (@build_no_foreign_data test_identity blank_packet built_example 5 1 (Some [170; 187]) 2 NRF_SUCCESS);
    [solve_packet_wf | unfold_consts; lia | solve_data_ok | exact build_example_run].
Defined.
