(* ===== verification/Sanitize.v ===== *)
(** * Sanitize: relocating the mesh structure and taking ownership

    Models [mesh_packet_adv_data_sanitize] and [mesh_packet_take_ownership]
    (mesh_packet.c lines 163-190 and 249-259).  The hand-written copy loop
    of lines 174-179 is [move_forward]; it is proved equal to a [memmove]
    whenever the destination lies before the source, which is the only way
    the code uses it.  Like the locator, sanitize is defined for any
    element size of the locator's walk; [mesh_packet_adv_data_sanitize] is
    the compiled instance. *)

From stdpp Require Import base list.
From Stdlib Require Import ZArith Lia.
From S2P Require Import Prelude MeshTypes AddrStamp Locator.

Open Scope Z_scope.
Open Scope mesh_scope.

(** [for (i = 0; i < k; ++i) payload[i] = *(src + i);] starting at [i]. *)
Fixpoint move_forward (k : nat) (i src : Z) (pl : list Z) : exec (list Z) :=
  match k with
  | O => Ret pl
  | S k' =>
      let* b := load_byte Payload pl (src + i) in
      let* pl' := store_byte Payload pl i b in
      move_forward k' (i + 1) src pl'
  end.

(** The reference: [memmove(&l[dst], &l[src], n)] on a list. *)
Definition memmove_ref (dst src n : nat) (l : list Z) : list Z :=
  take dst l ++ take n (drop src l) ++ drop (dst + n) l.

Section Sanitize.
Variable stride : Z.

(** [mesh_packet_adv_data_sanitize] over a walk of element size [stride]. *)
Definition adv_data_sanitize_with (pp : option mesh_packet) : exec (Z * option mesh_packet) :=
  let* r := adv_data_get_with stride pp in
  match r with
  | None => Ret (NRF_ERROR_INVALID_DATA, pp)
  | Some a =>
      deref pp (fun p =>
        let* p1 :=
          if negb (a =? 0) then
            let* len := adv_data_length p a in
            let* pl := move_forward (Z.to_nat (u8 (len + 1))) 0 a (pkt_payload p) in
            Ret (set_payload p pl)
          else Ret p in
        let* len0 := adv_data_length p1 0 in
        Ret (NRF_SUCCESS,
             Some (set_hdr_length p1 (MESH_PACKET_OVERHEAD - MESH_PACKET_ADV_OVERHEAD + len0))))
  end.

(** [mesh_packet_take_ownership]: sanitize when foreign data is present
    (its result code is ignored), then stamp the local address (its result
    code ignored too).  The packet pointer is dereferenced unchecked, so
    the model takes a packet, not a possibly-NULL pointer. *)
Definition take_ownership_with `{IdentityProvider} (p : mesh_packet) : exec mesh_packet :=
  let* extra := has_additional_data_with stride p in
  let* p1 :=
    if extra then
      let* '(_, pp') := adv_data_sanitize_with (Some p) in
      Ret (match pp' with Some p' => p' | None => p end)
    else Ret p in
  Ret (snd (mesh_packet_set_local_addr p1)).
End Sanitize.

Definition mesh_packet_adv_data_sanitize (pp : option mesh_packet) : exec (Z * option mesh_packet) :=
  adv_data_sanitize_with sizeof_mesh_adv_data_t pp.

Definition mesh_packet_take_ownership `{IdentityProvider} (p : mesh_packet) : exec mesh_packet :=
  take_ownership_with sizeof_mesh_adv_data_t p.

(** ** The copy loop is a memmove *)
Lemma move_forward_spec (k i s : nat) (l : list Z) :
  (i + s + k <= length l)%nat ->
  move_forward k (Z.of_nat i) (Z.of_nat s) l = Ret (memmove_ref i (i + s) k l).
Proof.
  unfold memmove_ref. revert i l. induction k as [|k IH]; intros i l Hlen; cbn [move_forward].
  - by rewrite take_0, app_nil_l, Nat.add_0_r, take_drop.
  - destruct (lookup_lt_is_Some_2 l (i + s)) as [b Hb]; [lia|].
    unfold load_byte. rewrite zget_Some by lia.
    replace (Z.to_nat (Z.of_nat s + Z.of_nat i)) with (i + s)%nat by lia. rewrite Hb. cbn [exec_bind].
    rewrite store_byte_ok by lia. cbn [exec_bind]. rewrite Nat2Z.id.
    replace (Z.of_nat i + 1) with (Z.of_nat (S i)) by lia.
    rewrite IH by (rewrite length_insert; lia).
    rewrite (take_S_r _ i b) by (rewrite list_lookup_insert_eq; [|lia]; done).
    rewrite take_insert. case_decide; [lia|].
    rewrite !drop_insert_lt by lia.
    rewrite (drop_S l b (i + s)) by done. cbn.
    rewrite <- app_assoc. cbn. by rewrite Nat.add_succ_r.
Qed.

Lemma memmove_ref_0 (n : nat) (l : list Z) : memmove_ref 0 0 n l = l.
Proof. unfold memmove_ref. by rewrite take_0, drop_0, app_nil_l, Nat.add_0_l, take_drop. Qed.

Lemma set_payload_id (p : mesh_packet) : set_payload p (pkt_payload p) = p.
Proof. by destruct p. Qed.

Lemma memmove_ref_length (s n : nat) (l : list Z) :
  (s + n <= length l)%nat -> length (memmove_ref 0 s n l) = length l.
Proof.
  intros H. unfold memmove_ref. rewrite take_0, app_nil_l, length_app, length_take, length_drop, length_drop. lia.
Qed.

Lemma memmove_ref_lookup (s n j : nat) (l : list Z) :
  (s + n <= length l)%nat ->
  memmove_ref 0 s n l !! j = if decide (j < n)%nat then l !! (s + j)%nat else l !! j.
Proof.
  intros H. unfold memmove_ref. rewrite take_0, app_nil_l.
  case_decide.
  - rewrite lookup_app_l by (rewrite length_take, length_drop; lia).
    by rewrite lookup_take_lt, lookup_drop by lia.
  - rewrite lookup_app_r by (rewrite length_take, length_drop; lia).
    rewrite length_take, length_drop, lookup_drop. f_equal. lia.
Qed.

(** What a successful location leads to, for any element size: the [len +
    1] bytes of the structure are moved to the start of the payload (a
    no-op when it is already there) and the header length is set to cover
    exactly that structure. *)
Lemma sanitize_found (stride : Z) (p : mesh_packet) (a len : Z) :
  0 <= stride -> packet_wf p ->
  adv_data_get_with stride (Some p) = Ret (Some a) ->
  adv_data_length p a = Ret len -> a + len + 1 <= BLE_ADV_PACKET_PAYLOAD_MAX_LENGTH ->
  adv_data_sanitize_with stride (Some p) =
  Ret (NRF_SUCCESS, Some (set_hdr_length
         (set_payload p (memmove_ref 0 (Z.to_nat a) (Z.to_nat (len + 1)) (pkt_payload p)))
         (MESH_PACKET_OVERHEAD - MESH_PACKET_ADV_OVERHEAD + len))).
Proof.
  intros Hs Hwf Hget Hlen Hfit.
  destruct (adv_data_get_Some stride p a Hs Hwf Hget) as (Ha & _ & len' & Hlen' & Hle).
  rewrite Hlen in Hlen'. injection Hlen' as <-.
  pose proof (payload_length_wf p Hwf) as Hpl.
  pose proof Hlen as Hb. apply payload_byte_Ret_range in Hb as [[Hl0 _] _]; [|eauto with mesh].
  unfold adv_data_sanitize_with. rewrite Hget. cbn [exec_bind deref].
  unfold BLE_ADV_PACKET_PAYLOAD_MAX_LENGTH, MESH_PACKET_ADV_OVERHEAD, RBC_MESH_VALUE_MAX_LEN in *.
  destruct (Z.eqb_spec a 0) as [->|Ha0]; cbn [negb exec_bind].
  - rewrite memmove_ref_0, set_payload_id, Hlen. reflexivity.
  - rewrite Hlen. cbn [exec_bind]. rewrite u8_small by lia.
    pose proof (move_forward_spec (Z.to_nat (len + 1)) 0 (Z.to_nat a) (pkt_payload p)
                  ltac:(lia)) as Hmv.
    rewrite Z2Nat.id in Hmv by lia. change (Z.of_nat 0) with 0 in Hmv.
    rewrite Hmv. cbn [exec_bind].
    unfold adv_data_length, payload_byte, load_byte. cbn [pkt_payload set_payload].
    rewrite zget_Some by (rewrite memmove_ref_length; lia).
    rewrite memmove_ref_lookup by lia. case_decide; [|lia].
    rewrite Nat.add_0_r, Nat.add_0_l in *.
    unfold adv_data_length, payload_byte, load_byte in Hlen.
    rewrite zget_Some in Hlen by lia. destruct (pkt_payload p !! Z.to_nat a); [|discriminate].
    by injection Hlen as ->.
Qed.

(** The payload after relocation is, within the header length, a chain of
    one structure. *)
Lemma relocated_chain (pl : list Z) (s : nat) (len : Z) :
  0 <= len -> (s + Z.to_nat (len + 1) <= length pl)%nat -> pl !! s = Some len ->
  ad_offsets 31 (memmove_ref 0 s (Z.to_nat (len + 1)) pl) 0 (1 + len) = [0].
Proof.
  intros Hl Hfit Hs. cbn [ad_offsets].
  destruct (Z.ltb_spec 0 (1 + len)); [|lia].
  rewrite zget_Some by (rewrite memmove_ref_length; lia).
  rewrite memmove_ref_lookup by lia. case_decide; [|lia]. rewrite Nat.add_0_r, Hs.
  cbn [ad_offsets]. destruct (Z.ltb_spec (0 + len + 1) (1 + len)); [lia|done].
Qed.

Lemma adv_data_length_lookup (p : mesh_packet) (a len : Z) :
  adv_data_length p a = Ret len -> 0 <= a /\ pkt_payload p !! Z.to_nat a = Some len.
Proof.
  unfold adv_data_length, payload_byte, load_byte, zget.
  destruct (Z.ltb_spec a 0); [discriminate|]. destruct (_ !! _); [|discriminate].
  intros [= ->]. auto.
Qed.

(** ** Properties *)

(** (C20) The hand-written copy loop of sanitize is a correct [memmove]
    to the start of the payload, including when source and destination
    overlap: byte [j] of the result is byte [a + j] of the input for
    [j < n] and unchanged otherwise, and the length is kept. *)
Theorem copy_loop_memmove (pl : list Z) (a n : Z) :
  0 <= a -> 0 <= n -> a + n <= Z.of_nat (length pl) ->
  exists pl', move_forward (Z.to_nat n) 0 a pl = Ret pl' /\ length pl' = length pl /\
    forall j : nat, pl' !! j =
      if decide (j < Z.to_nat n)%nat then pl !! (Z.to_nat a + j)%nat else pl !! j.
Proof.
  intros Ha Hn Hfit.
  pose proof (move_forward_spec (Z.to_nat n) 0 (Z.to_nat a) pl ltac:(lia)) as Hmv.
  rewrite Z2Nat.id in Hmv by lia. change (Z.of_nat 0) with 0 in Hmv.
  eexists. split; [exact Hmv|]. split.
  - apply memmove_ref_length. lia.
  - intros j. by apply memmove_ref_lookup; lia.
Qed.

Lemma sanitize_at0 (p : mesh_packet) (l t lo hi : Z) :
  packet_wf p -> take 4 (pkt_payload p) = [l; t; lo; hi] ->
  mesh_packet_adv_data_sanitize (Some p) =
    if first_ad_is_mesh t lo hi && (l <=? 30)
    then Ret (NRF_SUCCESS, Some (set_hdr_length p (7 + l)))
    else Ret (NRF_ERROR_INVALID_DATA, Some p).
Proof.
  intros Hwf H4. pose proof (adv_data_get_at0 p l t lo hi (payload_ok_wf p Hwf) H4) as Hget.
  destruct (first_ad_is_mesh t lo hi && (l <=? 30)) eqn:Hc.
  - apply andb_prop in Hc as [_ Hc]. apply Z.leb_le in Hc.
    destruct (adv_is_mesh_0 p l t lo hi H4) as [_ Hl].
    unfold mesh_packet_adv_data_sanitize.
    rewrite (sanitize_found _ p 0 l) by (unfold_consts; (done || lia)).
    pose proof Hl as Hb. apply payload_byte_Ret_range in Hb as [[Hl0 _] _]; [|eauto with mesh].
    rewrite memmove_ref_0, set_payload_id. by rewrite MESH_PACKET_OVERHEAD_eq.
  - unfold mesh_packet_adv_data_sanitize, adv_data_sanitize_with.
    fold (mesh_packet_adv_data_get (Some p)). by rewrite Hget.
Qed.


Lemma set_hdr_length_wf (p : mesh_packet) (v : Z) : packet_wf p -> packet_wf (set_hdr_length p v).
Proof. intros (? & ? & _ & ?). split; [done|]. split; [done|]. split; [apply u8_range|done]. Qed.

Lemma take4_of_wf (p : mesh_packet) :
  packet_wf p -> exists l t lo hi, take 4 (pkt_payload p) = [l; t; lo; hi].
Proof.
  intros Hwf. pose proof (payload_length_wf p Hwf) as Hl.
  destruct (pkt_payload p) as [|l [|t [|lo [|hi rest]]]]; cbn in Hl; try lia. eauto.
Qed.

(** (C21) The relocation branch of the compiled sanitize (lines 170-181)
    is dead code: since the compiled locator only ever returns offset 0,
    [mesh_packet_adv_data_sanitize] never moves a payload byte nor touches
    the address; on success it only rewrites the header length, to
    [7 + adv_data_length] of the first structure. *)
Theorem sanitize_never_moves (p p' : mesh_packet) (code : Z) :
  packet_wf p ->
  mesh_packet_adv_data_sanitize (Some p) = Ret (code, Some p') ->
  pkt_payload p' = pkt_payload p /\ pkt_addr p' = pkt_addr p /\
  (code = NRF_SUCCESS -> exists l, pkt_payload p !! 0%nat = Some l /\ hdr_length p' = 7 + l).
Proof.
  intros Hwf Hs. destruct (take4_of_wf p Hwf) as (l & t & lo & hi & H4).
  rewrite (sanitize_at0 p l t lo hi Hwf H4) in Hs.
  destruct (first_ad_is_mesh t lo hi && (l <=? 30)) eqn:Hc; injection Hs as <- <-;
    (split; [done|]); (split; [done|]).
  - intros _. exists l. split; [by destruct (take4_lookup _ _ _ _ _ H4)|].
    apply andb_prop in Hc as [_ Hc]. apply Z.leb_le in Hc.
    destruct (adv_is_mesh_0 p l t lo hi H4) as [_ Hl].
    apply payload_byte_Ret_range in Hl as [[Hl0 _] _]; [|eauto with mesh].
    cbn. by apply u8_small; lia.
  - unfold NRF_ERROR_INVALID_DATA, NRF_SUCCESS. lia.
Qed.

(** The packet [sanitize_found] produces, for a structure inside the
    payload: its bytes first, the rest kept, and a header length that
    declares exactly that structure. *)
Lemma sanitized_props (p : mesh_packet) (a len : Z) :
  packet_wf p -> 0 <= a -> 0 <= len <= 30 -> a + len + 1 <= BLE_ADV_PACKET_PAYLOAD_MAX_LENGTH ->
  pkt_payload p !! Z.to_nat a = Some len ->
  let p' := set_hdr_length
              (set_payload p (memmove_ref 0 (Z.to_nat a) (Z.to_nat (len + 1)) (pkt_payload p)))
              (MESH_PACKET_OVERHEAD - MESH_PACKET_ADV_OVERHEAD + len) in
  take (Z.to_nat (len + 1)) (pkt_payload p') =
    take (Z.to_nat (len + 1)) (drop (Z.to_nat a) (pkt_payload p)) /\
  drop (Z.to_nat (len + 1)) (pkt_payload p') = drop (Z.to_nat (len + 1)) (pkt_payload p) /\
  hdr_length p' = BLE_GAP_ADDR_LEN + 1 + len /\
  ad_offsets 31 (pkt_payload p') 0 (hdr_length p' - BLE_GAP_ADDR_LEN) = [0].
Proof.
  intros Hwf Ha Hl Hfit Hlk p'. pose proof (payload_length_wf p Hwf) as Hpl.
  unfold p'. unfold_consts. cbn [pkt_payload hdr_length set_hdr_length set_payload].
  rewrite u8_small by lia.
  pose proof (relocated_chain (pkt_payload p) (Z.to_nat a) len ltac:(lia) ltac:(lia) Hlk) as Hc.
  unfold memmove_ref in *. rewrite take_0, app_nil_l in *. rewrite Nat.add_0_l in *.
  split; [|split; [|split]].
  - rewrite take_app_length'; [done|]. rewrite length_take, length_drop. lia.
  - rewrite drop_app_length' by (rewrite length_take, length_drop; lia). done.
  - lia.
  - by replace (14 - 7 + len - 6) with (1 + len) by lia.
Qed.

(** (C22) The relocation is right for any locator walk: when the structure
    found at offset [a] (declared length [len]) lies inside the payload,
    sanitize moves its [len + 1] bytes to offset 0, keeps the bytes after
    them, and sets the header length so that the payload it declares is
    that one structure and nothing else. *)
Theorem sanitize_relocates (stride : Z) (p : mesh_packet) (a len : Z) :
  0 <= stride -> packet_wf p ->
  adv_data_get_with stride (Some p) = Ret (Some a) ->
  adv_data_length p a = Ret len -> a + len + 1 <= BLE_ADV_PACKET_PAYLOAD_MAX_LENGTH ->
  exists p', adv_data_sanitize_with stride (Some p) = Ret (NRF_SUCCESS, Some p') /\
    take (Z.to_nat (len + 1)) (pkt_payload p') =
      take (Z.to_nat (len + 1)) (drop (Z.to_nat a) (pkt_payload p)) /\
    drop (Z.to_nat (len + 1)) (pkt_payload p') = drop (Z.to_nat (len + 1)) (pkt_payload p) /\
    hdr_length p' = BLE_GAP_ADDR_LEN + 1 + len /\
    ad_offsets 31 (pkt_payload p') 0 (hdr_length p' - BLE_GAP_ADDR_LEN) = [0].
Proof.
  intros Hs Hwf Hget Hlen Hfit.
  destruct (adv_data_get_Some stride p a Hs Hwf Hget) as (Ha & _ & len' & Hlen' & Hle).
  rewrite Hlen in Hlen'. injection Hlen' as <-.
  pose proof Hlen as Hb. apply payload_byte_Ret_range in Hb as [[Hl0 _] _]; [|eauto with mesh].
  apply adv_data_length_lookup in Hlen as Hlk. destruct Hlk as [_ Hlk].
  rewrite (sanitize_found stride p a len) by done.
  eexists. split; [reflexivity|].
  apply sanitized_props; (done || unfold_consts; lia).
Qed.

(** A received advertisement with foreign structures before (Flags) and
    after (a 3-byte manufacturer structure) the mesh structure. *)
Definition foreign_around_mesh : mesh_packet :=
  mk_packet 2 0 23 (replicate 6 0)
    ([2; 1; 6; 9; 22; 228; 254; 5; 0; 1; 0; 170; 187; 3; 255; 1; 2] ++ replicate 14 0).

(** (C23) The compiled take-ownership keeps foreign data: on a
    well-formed packet whose first AD structure is not the application
    one, the scan reports foreign data as soon as the header declares more
    than its 7 fixed bytes, but sanitize then fails (its locator only
    examines offset 0) and its error is ignored: take-ownership only
    re-stamps the address, and the payload and its declared length leave
    as they came in, foreign structures included.  The spec requires them
    to be removed. *)
Theorem take_ownership_keeps_foreign `{IP : IdentityProvider} (p : mesh_packet) (l t lo hi : Z) :
  packet_wf p -> take 4 (pkt_payload p) = [l; t; lo; hi] -> first_ad_is_mesh t lo hi = false ->
  mesh_packet_has_additional_data p = Ret (7 <? hdr_length p) /\
  mesh_packet_take_ownership p = Ret (snd (mesh_packet_set_local_addr p)).
Proof.
  intros Hwf H4 Hf.
  pose proof (has_additional_data_foreign_first p l t lo hi H4 Hf) as Hx. split; [done|].
  unfold mesh_packet_take_ownership, take_ownership_with.
  fold (mesh_packet_has_additional_data p). rewrite Hx. cbn [exec_bind].
  destruct (7 <? hdr_length p); [|done].
  fold (mesh_packet_adv_data_sanitize (Some p)). by rewrite (sanitize_at0 p l t lo hi Hwf H4), Hf.
Qed.

Definition mesh_only_sanitized : mesh_packet := set_hdr_length mesh_only 16.

Lemma sanitize_mesh_only :
  mesh_packet_adv_data_sanitize (Some mesh_only) = Ret (NRF_SUCCESS, Some mesh_only_sanitized).
Proof. vm_compute. reflexivity. Qed.

Lemma copy_loop_memmove_witness :
  exists pl', move_forward (Z.to_nat 3) 0 2 [9; 8; 7; 6; 5; 4] = Ret pl' /\
    length pl' = length [9; 8; 7; 6; 5; 4] /\
    forall j : nat, pl' !! j =
      if decide (j < Z.to_nat 3)%nat then [9; 8; 7; 6; 5; 4] !! (Z.to_nat 2 + j)%nat
      else [9; 8; 7; 6; 5; 4] !! j.
Proof. apply (copy_loop_memmove [9; 8; 7; 6; 5; 4] 2 3); cbn; lia. Defined.

Lemma sanitize_never_moves_witness :
  pkt_payload mesh_only_sanitized = pkt_payload mesh_only /\
  pkt_addr mesh_only_sanitized = pkt_addr mesh_only /\
  (NRF_SUCCESS = NRF_SUCCESS -> exists l, pkt_payload mesh_only !! 0%nat = Some l /\
                                          hdr_length mesh_only_sanitized = 7 + l).
Proof.
  apply (sanitize_never_moves mesh_only mesh_only_sanitized NRF_SUCCESS);
    [solve_packet_wf | exact sanitize_mesh_only].
Defined.

Lemma sanitize_relocates_witness :
  exists p', adv_data_sanitize_with 1 (Some foreign_around_mesh) = Ret (NRF_SUCCESS, Some p') /\
    take (Z.to_nat (9 + 1)) (pkt_payload p') =
      take (Z.to_nat (9 + 1)) (drop (Z.to_nat 3) (pkt_payload foreign_around_mesh)) /\
    drop (Z.to_nat (9 + 1)) (pkt_payload p') =
      drop (Z.to_nat (9 + 1)) (pkt_payload foreign_around_mesh) /\
    hdr_length p' = BLE_GAP_ADDR_LEN + 1 + 9 /\
    ad_offsets 31 (pkt_payload p') 0 (hdr_length p' - BLE_GAP_ADDR_LEN) = [0].
Proof.
  apply (sanitize_relocates 1 foreign_around_mesh 3 9);
    [lia | solve_packet_wf | vm_compute; reflexivity | vm_compute; reflexivity
    | unfold_consts; lia].
Defined.

Lemma take_ownership_keeps_foreign_witness :
  mesh_packet_has_additional_data foreign_around_mesh = Ret (7 <? hdr_length foreign_around_mesh) /\
  @mesh_packet_take_ownership test_identity foreign_around_mesh
    = Ret (snd (@mesh_packet_set_local_addr test_identity foreign_around_mesh)).
Proof.
  apply (@take_ownership_keeps_foreign test_identity foreign_around_mesh 2 1 6 9);
    [solve_packet_wf | reflexivity | reflexivity].
Defined.
