(* ===== verification/ChainSpec.v ===== *)
(** * ChainSpec: the locator of the spec

    The spec (section 4.4) describes the locator on the AD chain: walk the
    structures from offset 0, each a length byte followed by that many
    bytes, and return the first one that carries the application tag and
    uuid, provided its declared length is at most
    [MESH_PACKET_ADV_OVERHEAD + RBC_MESH_VALUE_MAX_LEN].  [spec_locate] states
    this as a pure function of the payload, using the chain [ad_offsets].
    The compiled [mesh_packet_adv_data_get] computes it on every packet
    whose first structure is the application one, the layout
    [mesh_packet_build] produces.  Elsewhere it does not: its cursor
    advances by 31 bytes per unit, so it only ever examines offset 0
    (Locator, C11). *)

From stdpp Require Import base list.
From Stdlib Require Import ZArith Lia.
From S2P Require Import Prelude MeshTypes Locator.

Open Scope Z_scope.
Open Scope mesh_scope.

(** The application signature of the structure at offset [o], as a pure
    test; bytes outside the payload do not match. *)
Definition ad_is_app (pl : list Z) (o : Z) : bool :=
  match zget pl (o + 1), zget pl (o + 2), zget pl (o + 2 + 1) with
  | Some t, Some lo, Some hi => first_ad_is_mesh t lo hi
  | _, _, _ => false
  end.

(** The spec's locator: the first structure of the chain with the
    application signature, if its declared length is valid. *)
Definition spec_locate (pl : list Z) : option Z :=
  match find (ad_is_app pl) (ad_offsets 31 pl 0 BLE_ADV_PACKET_PAYLOAD_MAX_LENGTH) with
  | Some o =>
      match zget pl o with
      | Some len => if len <=? MESH_PACKET_ADV_OVERHEAD + RBC_MESH_VALUE_MAX_LEN
                    then Some o else None
      | None => None
      end
  | None => None
  end.

(** ** Lemmas *)
Lemma ad_offsets_step (fuel : nat) (pl : list Z) (off stop len : Z) :
  off < stop -> zget pl off = Some len ->
  ad_offsets (S fuel) pl off stop = off :: ad_offsets fuel pl (off + len + 1) stop.
Proof. intros H Hz. cbn. destruct (Z.ltb_spec off stop); [|lia]. by rewrite Hz. Qed.

(** ** Refinement *)

Lemma spec_locate_at0 (pl : list Z) (l t lo hi : Z) :
  Z.of_nat (length pl) = 31 -> take 4 pl = [l; t; lo; hi] -> first_ad_is_mesh t lo hi = true ->
  spec_locate pl = if l <=? 30 then Some 0 else None.
Proof.
  intros Hlen H4 Hm. destruct (take4_lookup _ _ _ _ _ H4) as (H0 & H1 & H2 & H3).
  assert (Hz0 : zget pl 0 = Some l) by exact H0.
  unfold spec_locate. unfold BLE_ADV_PACKET_PAYLOAD_MAX_LENGTH.
  rewrite (ad_offsets_step 30 pl 0 31 l) by (done || lia). cbn [find].
  assert (Ha : ad_is_app pl 0 = true).
  { unfold ad_is_app.
    assert (E1 : zget pl (0 + 1) = Some t) by exact H1.
    assert (E2 : zget pl (0 + 2) = Some lo) by exact H2.
    assert (E3 : zget pl (0 + 2 + 1) = Some hi) by exact H3.
    by rewrite E1, E2, E3. }
  by rewrite Ha, Hz0.
Qed.

(** (C24) The compiled locator meets the spec on every packet whose first
    structure carries the application signature, which is the layout
    [mesh_packet_build] produces: there [mesh_packet_adv_data_get] and
    [spec_locate] agree.  On other packets they may differ (C11). *)
Theorem compiled_locator_meets_spec_at0 (p : mesh_packet) (l t lo hi : Z) :
  packet_wf p -> take 4 (pkt_payload p) = [l; t; lo; hi] -> first_ad_is_mesh t lo hi = true ->
  mesh_packet_adv_data_get (Some p) = Ret (spec_locate (pkt_payload p)).
Proof.
  intros Hwf H4 Hm.
  rewrite (adv_data_get_at0 p l t lo hi (payload_ok_wf p Hwf) H4), Hm.
  by rewrite (spec_locate_at0 _ l t lo hi (payload_length_wf p Hwf) H4 Hm).
Qed.

(** ** Witnesses *)
Lemma compiled_locator_meets_spec_at0_witness :
  mesh_packet_adv_data_get (Some mesh_only) = Ret (spec_locate (pkt_payload mesh_only)).
Proof.
  apply (compiled_locator_meets_spec_at0 mesh_only 9 22 228 254);
    [solve_packet_wf | reflexivity | reflexivity].
Defined.
