(* ===== verification/Composition.v ===== *)
(** * Composition: the packet operations together

    The life of a packet in the mesh: a node builds it
    ([mesh_packet_build]), another node receives it and relays it as its
    own ([mesh_packet_take_ownership]), and every node reads the handle
    ([mesh_packet_handle_get]).  This file shows that the relay of a built
    packet keeps the value: only the address changes.  The lemma that a
    build leaves a well-formed packet is what PoolStore needs to build twice
    into one slot. *)

From stdpp Require Import base list.
From Stdlib Require Import ZArith Lia.
From S2P Require Import Prelude MeshTypes AddrStamp Locator Builder Sanitize.

Open Scope Z_scope.
Open Scope mesh_scope.

(** ** The readers see only the payload *)
Section PayloadOnly.
Context (p q : mesh_packet) (Hpq : pkt_payload p = pkt_payload q).

Lemma payload_byte_payload (off : Z) : payload_byte p off = payload_byte q off.
Proof. unfold payload_byte. by rewrite Hpq. Qed.

Lemma adv_is_mesh_payload (a : Z) : adv_is_mesh p a = adv_is_mesh q a.
Proof.
  unfold adv_is_mesh, adv_data_type, adv_mesh_uuid, payload_u16.
  by rewrite !payload_byte_payload.
Qed.

Lemma adv_data_walk_payload (stride : Z) (fuel : nat) (a : Z) :
  adv_data_walk stride fuel p a = adv_data_walk stride fuel q a.
Proof.
  revert a. induction fuel as [|fuel IH]; intros a; [done|]. cbn [adv_data_walk].
  rewrite adv_is_mesh_payload. unfold adv_data_length. rewrite payload_byte_payload.
  destruct (adv_is_mesh q a) as [[]|]; cbn; [done| |done].
  destruct (payload_byte q a); cbn; [|done].
  destruct (_ >=? _); [done|apply IH].
Qed.

Lemma handle_get_payload : mesh_packet_handle_get (Some p) = mesh_packet_handle_get (Some q).
Proof.
  unfold mesh_packet_handle_get, mesh_packet_adv_data_get, adv_data_get_with.
  rewrite adv_data_walk_payload.
  destruct (adv_data_walk _ _ q 0) as [[a|]|]; cbn; [|done|done].
  unfold adv_data_length. rewrite payload_byte_payload.
  destruct (payload_byte q a); cbn; [|done]. destruct (_ >? _); [done|cbn].
  unfold adv_handle, payload_u16. by rewrite !payload_byte_payload.
Qed.
End PayloadOnly.

(** ** A build keeps a packet well-formed *)
Section Operations.
Context `{IP : IdentityProvider}.

Lemma build_keeps_wf (p p' : mesh_packet) (h v : Z) (data : option (list Z)) (n code : Z) :
  packet_wf p -> identity_ok -> 0 <= n -> data_ok data n ->
  mesh_packet_build (Some p) h v data n = Ret (code, Some p') -> packet_wf p'.
Proof.
  intros Hwf Hid Hn Hd Hb.
  destruct (Z.leb_spec n RBC_MESH_VALUE_MAX_LEN) as [Hle|Hgt].
  - destruct (build_ok_facts p p' h v data n code Hwf ltac:(lia) Hd Hb) as (_ & _ & _ & _ & Hl & Hok).
    rewrite build_ok in Hb by (done || lia). injection Hb as _ <-.
    destruct (set_local_addr_wf p Hwf Hid) as (_ & Hat & _ & Hal & Hao & _).
    unfold packet_wf, is_byte, BLE_PACKET_TYPE_ADV_NONCONN_IND in *. cbn in *.
    unfold_consts. repeat split; (done || lia).
  - unfold mesh_packet_build in Hb. destruct (Z.gtb_spec n RBC_MESH_VALUE_MAX_LEN); [|lia].
    by injection Hb as _ <-.
Qed.

End Operations.

(** ** Build on one node, relay on another *)

(** (C29) Relaying keeps the value: when one node builds a packet (with
    its own identity provider) and another node takes ownership of it
    (with a provider [relay] that answers), the relay does not sanitize:
    the payload and the declared length are unchanged, the address becomes
    the relay's, and [mesh_packet_handle_get] still reads the handle that
    was built in. *)
Theorem relay_keeps_value `{IP : IdentityProvider} (relay : IdentityProvider)
    (p p' : mesh_packet) (h v : Z) (data : option (list Z)) (n code : Z) :
  packet_wf p -> @identity_ok relay -> 0 <= n <= RBC_MESH_VALUE_MAX_LEN -> data_ok data n ->
  @mesh_packet_build IP (Some p) h v data n = Ret (code, Some p') ->
  exists q, @mesh_packet_take_ownership relay p' = Ret q /\
    pkt_payload q = pkt_payload p' /\ hdr_length q = hdr_length p' /\
    pkt_addr q = gap_addr (snd (@sd_ble_gap_address_get relay)) /\
    mesh_packet_handle_get (Some q) = Ret (u16 h).
Proof.
  intros Hwf Hid Hn Hd Hb.
  destruct (@built_locate IP p p' h v data n code Hwf Hn Hd Hb) as (_ & Hh & Hextra).
  unfold mesh_packet_take_ownership, take_ownership_with.
  fold (mesh_packet_has_additional_data p'). rewrite Hextra. cbn.
  eexists. split; [reflexivity|].
  destruct (@set_local_addr_payload relay p') as (Hpl & Hl & _).
  split; [done|]. split; [done|]. split; [by apply (@set_local_addr_addr relay)|].
  rewrite <- Hh. by apply handle_get_payload.
Qed.

(** ** Witnesses *)

(** The relay's identity: a public address [0x11; ...; 0x66]. *)
Definition relay_identity : IdentityProvider :=
  {| sd_ble_gap_address_get := (NRF_SUCCESS, mk_gap_addr 0 [17; 34; 51; 68; 85; 102]) |}.

Lemma relay_keeps_value_witness :
  exists q, @mesh_packet_take_ownership relay_identity built_example = Ret q /\
    pkt_payload q = pkt_payload built_example /\ hdr_length q = hdr_length built_example /\
    pkt_addr q = gap_addr (snd (@sd_ble_gap_address_get relay_identity)) /\
    mesh_packet_handle_get (Some q) = Ret (u16 5).
Proof.
  apply (@relay_keeps_value test_identity relay_identity blank_packet built_example 5 1
           (Some [170; 187]) 2 NRF_SUCCESS).
  - solve_packet_wf.
  - split; [reflexivity|]. split; [reflexivity|].
    unfold bytes_ok, is_byte. repeat constructor; lia.
  - unfold_consts; lia.
  - split; [cbn; lia|]. unfold bytes_ok, is_byte. repeat constructor; lia.
  - exact build_example_run.
Defined.
