(* ===== verification/PoolStore.v ===== *)
(** * PoolStore: the packets of the pool and the pointers to them

    [g_packet_pool] (mesh_packet.c line 43) holds the packets themselves.
    A context that acquires a slot gets the pointer [&g_packet_pool[i]]
    and passes it to the packet functions ([mesh_packet_build],
    [mesh_packet_handle_get], ...), which read and write [*p_packet]: the
    slot in the shared array, not a copy.  Two contexts that hold the same
    pointer therefore see each other's writes.  This file models the array
    as a [list mesh_packet] indexed like [g_packet_refs], and a packet
    function called through a pool pointer as a read and a write of that
    slot ([build_at], [handle_get_at]).  It then shows what the race of
    Concurrency (C31) costs: two owners of one packet overwrite each
    other's data. *)

From stdpp Require Import base list.
From Stdlib Require Import ZArith Lia.
From S2P Require Import Prelude MeshTypes Pool PoolSpec Concurrency AddrStamp Locator Builder Composition.

Open Scope Z_scope.
Open Scope mesh_scope.

(** [static mesh_packet_t g_packet_pool[MESH_PACKET_POOL_SIZE]] *)
Definition pool_store := list mesh_packet.

(** The slot a [mesh_packet_t*] points to, when it points to the start of
    one: [p_packet == &g_packet_pool[i]]. *)
Definition slot_of (cfg : pool_config) (a : Z) : option nat :=
  let i := packet_index cfg a in
  if (i <? MESH_PACKET_POOL_SIZE cfg) && (packet_addr cfg i =? a) then Some (Z.to_nat i) else None.

(** The array holds [MESH_PACKET_POOL_SIZE] well-formed packets. *)
Definition store_wf (cfg : pool_config) (store : pool_store) : Prop :=
  Z.of_nat (length store) = MESH_PACKET_POOL_SIZE cfg /\ Forall packet_wf store.

Section StoreOps.
Context `{IP : IdentityProvider}.

(** [mesh_packet_build(p_packet, ...)] on a pointer into the pool: the
    function reads and writes the slot [*p_packet]. *)
Definition build_at (cfg : pool_config) (store : list mesh_packet) (a h v : Z)
    (data : option (list Z)) (n : Z) : exec (Z * list mesh_packet) :=
  match slot_of cfg a with
  | None => Fault (OobAccess PacketPool a)
  | Some i =>
      let* '(code, pp') := mesh_packet_build (store !! i) h v data n in
      Ret (code, match pp' with Some p' => <[i := p']> store | None => store end)
  end.
End StoreOps.

(** [mesh_packet_handle_get(p_packet)] on a pointer into the pool. *)
Definition handle_get_at (cfg : pool_config) (store : list mesh_packet) (a : Z) : exec Z :=
  match slot_of cfg a with
  | None => Fault (OobAccess PacketPool a)
  | Some i => mesh_packet_handle_get (store !! i)
  end.

(** Two owners, each with the value its [mesh_packet_acquire] returned:
    the first builds handle [h0] into its packet, the second builds [h1]
    into its own (when it got one), then the first reads its handle. *)
Definition two_owners `{IdentityProvider} (cfg : pool_config) (store : list mesh_packet) (r0 r1 : ret)
    (h0 h1 v : Z) (data : option (list Z)) (n : Z) : exec Z :=
  match r0 with
  | RetAddr (Some a0) =>
      let* '(_, store1) := build_at cfg store a0 h0 v data n in
      let* store2 := match r1 with
                     | RetAddr (Some a1) => let* '(_, s) := build_at cfg store1 a1 h1 v data n in Ret s
                     | _ => Ret store1
                     end in
      handle_get_at cfg store2 a0
  | _ => Ret RBC_MESH_INVALID_HANDLE
  end.

(** ** Lemmas: the store *)
Lemma slot_of_addr (cfg : pool_config) (i : nat) :
  pool_config_wf cfg -> Z.of_nat i < MESH_PACKET_POOL_SIZE cfg ->
  slot_of cfg (packet_addr cfg (Z.of_nat i)) = Some i.
Proof.
  intros Hcfg Hi. unfold slot_of.
  pose proof (packet_index_addr cfg (Z.of_nat i) 0 Hcfg ltac:(lia) ltac:(unfold_consts; lia)) as Hix.
  rewrite Z.add_0_r in Hix. rewrite Hix, Nat2Z.id.
  destruct (Z.ltb_spec (Z.of_nat i) (MESH_PACKET_POOL_SIZE cfg)); [|lia]. by rewrite Z.eqb_refl.
Qed.

Lemma store_wf_insert (cfg : pool_config) (store : list mesh_packet) (i : nat) (p : mesh_packet) :
  store_wf cfg store -> packet_wf p -> store_wf cfg (<[i := p]> store).
Proof. intros [Hlen Hok] Hp. split; [by rewrite length_insert|]. by apply Forall_insert. Qed.

Lemma store_slot (cfg : pool_config) (store : list mesh_packet) (i : nat) :
  store_wf cfg store -> Z.of_nat i < MESH_PACKET_POOL_SIZE cfg ->
  exists p, store !! i = Some p /\ packet_wf p.
Proof.
  intros [Hlen Hok] Hi. destruct (lookup_lt_is_Some_2 store i) as [p Hp]; [lia|].
  exists p. split; [done|]. exact (Forall_lookup_1 _ _ _ _ Hok Hp).
Qed.

Lemma handle_get_at_slot (cfg : pool_config) (store : list mesh_packet) (i : nat) :
  pool_config_wf cfg -> Z.of_nat i < MESH_PACKET_POOL_SIZE cfg ->
  handle_get_at cfg store (packet_addr cfg (Z.of_nat i)) = mesh_packet_handle_get (store !! i).
Proof. intros Hcfg Hi. unfold handle_get_at. by rewrite slot_of_addr. Qed.

Section BuildAt.
Context `{IP : IdentityProvider} (cfg : pool_config) (Hcfg : pool_config_wf cfg) (Hid : identity_ok).

(** A build through the pointer of slot [i] succeeds, replaces that slot
    only, keeps the array well-formed, and leaves a packet whose handle is
    the one built in. *)
Lemma build_at_slot (store : list mesh_packet) (i : nat) (h v : Z) (data : option (list Z)) (n : Z) :
  store_wf cfg store -> Z.of_nat i < MESH_PACKET_POOL_SIZE cfg ->
  0 <= n <= RBC_MESH_VALUE_MAX_LEN -> data_ok data n ->
  exists p', build_at cfg store (packet_addr cfg (Z.of_nat i)) h v data n
               = Ret (NRF_SUCCESS, <[i := p']> store) /\
             store_wf cfg (<[i := p']> store) /\ store_wf cfg store /\
             mesh_packet_handle_get (Some p') = Ret (u16 h).
Proof.
  intros Hst Hi Hn Hd. destruct (store_slot cfg store i Hst Hi) as (p & Hp & Hwf).
  pose proof (build_ok p h v data n Hwf Hn Hd) as Hb.
  unfold build_at. rewrite slot_of_addr, Hp, Hb by done. cbn [exec_bind].
  eexists. split; [reflexivity|]. split; [|split; [done|]].
  - apply store_wf_insert; [done|]. exact (build_keeps_wf p _ h v data n _ Hwf Hid ltac:(lia) Hd Hb).
  - exact (proj1 (proj2 (built_locate p _ h v data n _ Hwf Hn Hd Hb))).
Qed.
End BuildAt.

(** The second of two serial acquisitions returns another slot, or none. *)
Lemma acquire_second (cfg : pool_config) (refs : list Z) (i : nat) :
  find_free 0 refs = Some i ->
  match fst (mesh_packet_acquire cfg (<[i := 1]> refs)) with
  | Some b => exists j, b = packet_addr cfg (Z.of_nat j) /\ j <> i /\ (j < length refs)%nat
  | None => True
  end.
Proof.
  intros E. apply find_free_Some in E as [Ei _]. apply lookup_lt_Some in Ei.
  unfold mesh_packet_acquire. destruct (find_free 0 (<[i := 1]> refs)) as [j|] eqn:E2; cbn; [|done].
  apply find_free_Some in E2 as [Ej _]. exists j. split; [done|].
  pose proof (lookup_lt_Some _ _ _ Ej) as Hj. rewrite length_insert in Hj. split; [|done].
  intros ->. by rewrite list_lookup_insert_eq in Ej.
Qed.

(** ** Aliasing through the double acquisition *)

(** (C32) Use of another owner's packet: take a well-formed pool and
    packet array, and a table on which [mesh_packet_acquire] hands out
    slot [a].  Two contexts acquire a packet, then each builds its own
    handle into the packet it got ([h0], then [h1]), then the first reads
    its handle back.  When the two acquisitions run one after the other
    (the mutual exclusion the spec requires), the first context reads its
    own [h0].  When they interleave as in C31, both get the pointer [a],
    the second build overwrites the first one's packet in
    [g_packet_pool], and the first context reads [h1]: the hazard the
    reference counts exist to prevent. *)
Theorem double_acquire_clobbers `{IP : IdentityProvider} (cfg : pool_config)
    (refs refs1 : list Z) (store : list mesh_packet) (a h0 h1 v : Z) (data : option (list Z)) (n : Z) :
  pool_config_wf cfg -> refs_wf cfg refs -> store_wf cfg store -> identity_ok ->
  0 <= n <= RBC_MESH_VALUE_MAX_LEN -> data_ok data n ->
  mesh_packet_acquire cfg refs = (Some a, refs1) ->
  (exists r1 refs2, calls_atomic cfg [CAcquire; CAcquire] refs = Ret ([RetAddr (Some a); r1], refs2) /\
     two_owners cfg store (RetAddr (Some a)) r1 h0 h1 v data n = Ret (u16 h0)) /\
  (exists s, run_sched cfg (mk_conc refs (map thread_call [CAcquire; CAcquire])) alternate2 = Ret s /\
     c_threads s = [Returned (RetAddr (Some a)); Returned (RetAddr (Some a))] /\
     two_owners cfg store (RetAddr (Some a)) (RetAddr (Some a)) h0 h1 v data n = Ret (u16 h1)).
Proof.
  intros Hcfg Hrefs Hst Hid Hn Hd Hacq. pose proof Hacq as Hacq'.
  unfold mesh_packet_acquire in Hacq. destruct (find_free 0 refs) as [i|] eqn:E; [|discriminate].
  injection Hacq as <- <-.
  assert (Hi : Z.of_nat i < MESH_PACKET_POOL_SIZE cfg).
  { apply find_free_Some in E as [Ei _]. apply lookup_lt_Some in Ei. destruct Hrefs; lia. }
  destruct (build_at_slot cfg Hcfg Hid store i h0 v data n Hst Hi Hn Hd) as (p0 & Hb0 & Hst0 & _ & Hh0).
  assert (Hlen : (i < length store)%nat) by (destruct Hst; lia).
  split.
  - cbn [calls_atomic call_atomic]. rewrite Hacq'. cbn [exec_bind].
    pose proof (acquire_second cfg refs i E) as Hsec.
    destruct (mesh_packet_acquire cfg (<[i:=1]> refs)) as [[b|] refs2]; cbn [exec_bind fst] in Hsec |- *;
      eexists _, _; (split; [reflexivity|]); unfold two_owners; rewrite Hb0; cbn [exec_bind].
    + destruct Hsec as (j & -> & Hji & Hj).
      destruct (build_at_slot cfg Hcfg Hid _ j h1 v data n Hst0 ltac:(destruct Hrefs; lia) Hn Hd)
        as (p1 & Hb1 & _ & _ & _).
      rewrite Hb1. cbn [exec_bind]. rewrite handle_get_at_slot by done.
      by rewrite list_lookup_insert_ne, list_lookup_insert_eq by done.
    + rewrite handle_get_at_slot by done. by rewrite list_lookup_insert_eq.
  - eexists. split; [exact (alternate_acquires cfg refs i E)|]. split; [done|].
    unfold two_owners. rewrite Hb0. cbn [exec_bind].
    destruct (build_at_slot cfg Hcfg Hid _ i h1 v data n Hst0 Hi Hn Hd) as (p1 & Hb1 & _ & _ & Hh1).
    rewrite Hb1. cbn [exec_bind]. rewrite handle_get_at_slot by done.
    by rewrite list_insert_insert_eq, list_lookup_insert_eq.
Qed.

(** ** Witness on the two-slot pool *)
Lemma double_acquire_clobbers_witness :
  (exists r1 refs2, calls_atomic pool2 [CAcquire; CAcquire] (mesh_packet_init pool2)
                      = Ret ([RetAddr (Some (packet_addr pool2 0)); r1], refs2) /\
     @two_owners test_identity pool2 [blank_packet; blank_packet] (RetAddr (Some (packet_addr pool2 0))) r1
       5 6 1 (Some [170; 187]) 2 = Ret (u16 5)) /\
  (exists s, run_sched pool2 (mk_conc (mesh_packet_init pool2) (map thread_call [CAcquire; CAcquire])) alternate2
               = Ret s /\
     c_threads s = [Returned (RetAddr (Some (packet_addr pool2 0))); Returned (RetAddr (Some (packet_addr pool2 0)))] /\
     @two_owners test_identity pool2 [blank_packet; blank_packet] (RetAddr (Some (packet_addr pool2 0)))
       (RetAddr (Some (packet_addr pool2 0))) 5 6 1 (Some [170; 187]) 2 = Ret (u16 6)).
Proof.
  apply (@double_acquire_clobbers test_identity pool2 (mesh_packet_init pool2) [1; 0]).
  - solve_pool_wf.
  - unfold mesh_packet_init; solve_pool_wf.
  - split; [reflexivity|]. repeat constructor; solve_packet_wf.
  - split; [reflexivity|]. split; [reflexivity|]. unfold bytes_ok, is_byte. repeat constructor; lia.
  - unfold_consts; lia.
  - split; [cbn; lia|]. unfold bytes_ok, is_byte. repeat constructor; lia.
  - reflexivity.
Defined.
